(** * Yandex Calendar CLI (scripts/yacal.py): a shallow embedding

    The facade [YandexCalendarClient] is glue around two libraries (caldav
    and icalendar).  The embedding keeps the facade's own control flow
    (argument defaults, truthiness guards, the linear scans, the calls it
    makes and the order it makes them in) and represents the libraries by
    the smallest model the facade can observe:

    - calendar objects live in a heap of components, addressed by object
      references, because the facade mutates the component of an object it
      got from a list and then asks the object to save itself;
    - every request that carries arguments to the server is appended to a
      trace;
    - library functions whose result the facade only passes along are the
      methods of the class [Library].

    The server always answers: failures of the transport or of the
    protocol, which the facade lets through unchanged, are outside the
    model.  The exceptions of the model are the ones the facade's own code
    can cause. *)

From Stdlib Require Import ZArith String Ascii List Lia Bool.
From stdpp Require Import base option gmap strings list fin_maps.

Set Warnings "-register-all".

Open Scope Z_scope.
Open Scope string_scope.

(** ** Python strings *)

Module Str.

(** [s.startswith(p)]. *)
Fixpoint startswith (p s : string) : bool :=
  match p, s with
  | EmptyString, _ => true
  | String a p', String b s' => if Ascii.eqb a b then startswith p' s' else false
  | String _ _, EmptyString => false
  end.

(** [needle in hay] on strings. *)
Fixpoint contains (needle hay : string) : bool :=
  if startswith needle hay then true
  else match hay with
       | EmptyString => false
       | String _ hay' => contains needle hay'
       end.

(** Truthiness of a string: empty is false. *)
Definition truthy (s : string) : bool :=
  match s with EmptyString => false | String _ _ => true end.

(** [str.lower] restricted to the ASCII letters; other bytes are kept. *)
Definition lower_ascii (c : ascii) : ascii :=
  let n := nat_of_ascii c in
  if (Nat.leb 65 n && Nat.leb n 90)%bool then ascii_of_nat (n + 32) else c.

Fixpoint lower (s : string) : string :=
  match s with
  | EmptyString => EmptyString
  | String c s' => String (lower_ascii c) (lower s')
  end.

End Str.

(** ** Exceptions *)

Inductive exn := ValueError | AttributeError | OverflowError.

Inductive result (A : Type) :=
| Ok (a : A)
| Raise (e : exn).
Arguments Ok {A} a.
Arguments Raise {A} e.

(** ** datetime and timedelta

    A naive [datetime.datetime]: the date as its proleptic Gregorian ordinal
    ([date.toordinal()], 1 for 0001-01-01, [MAXORDINAL] for 9999-12-31) and
    the four time-of-day fields.  A [timedelta] is its total number of
    microseconds.  Both have a range, and leaving it raises
    OverflowError. *)

Record datetime := mkDatetime {
  ordinal : Z;
  hour : Z;
  minute : Z;
  second : Z;
  microsecond : Z
}.

Definition us_per_day : Z := 86400 * 1000000.

(** The microseconds of [days] days, [hours] hours and [minutes] minutes. *)
Definition micros (days hours minutes : Z) : Z :=
  ((days * 24 + hours) * 60 + minutes) * 60 * 1000000.

(** [datetime.timedelta(days=days, hours=hours, minutes=minutes)]: the
    duration, when its number of whole days is at most 999999999 in
    magnitude. *)
Definition timedelta (days hours minutes : Z) : result Z :=
  let us := micros days hours minutes in
  if (-999999999 <=? us / us_per_day)%Z && (us / us_per_day <=? 999999999)%Z
  then Ok us else Raise OverflowError.

(** [date.max.toordinal()]. *)
Definition MAXORDINAL : Z := 3652059.

(** Microseconds since ordinal 0, as [datetime.__add__] computes them. *)
Definition to_micro (d : datetime) : Z :=
  (ordinal d * 86400 + hour d * 3600 + minute d * 60 + second d) * 1000000
  + microsecond d.

Definition of_micro (t : Z) : datetime :=
  let days := t / us_per_day in
  let rem := t mod us_per_day in
  let secs := rem / 1000000 in
  {| ordinal := days;
     hour := secs / 3600;
     minute := (secs mod 3600) / 60;
     second := (secs mod 3600) mod 60;
     microsecond := rem mod 1000000 |}.

(** The datetime [delta] microseconds after [d], whatever its date. *)
Definition dt_shift (d : datetime) (delta : Z) : datetime :=
  of_micro (to_micro d + delta).

(** [d + delta]: the shifted datetime, when its date is one of the years 1
    to 9999 ([0 < days <= _MAXORDINAL] in [datetime.__add__]). *)
Definition dt_add (d : datetime) (delta : Z) : result datetime :=
  let r := dt_shift d delta in
  if (0 <? ordinal r)%Z && (ordinal r <=? MAXORDINAL)%Z
  then Ok r else Raise OverflowError.

(** [d.replace(hour=h, minute=m, second=s, microsecond=us)]. *)
Definition dt_replace (d : datetime) (h m s us : Z) : datetime :=
  {| ordinal := ordinal d; hour := h; minute := m; second := s; microsecond := us |}.

(** ** icalendar components *)

Inductive value :=
| VStr (s : string)
| VInt (n : Z)
| VDatetime (d : datetime)
| VTimedelta (us : Z)
| VRecur (r : list (string * list string))
| VCategories (tags : list string).

(** A component ([icalendar.cal.Component]): its kind ([ical.name]), its
    properties (the component is a dict from property name to value) and
    its sub-components. *)
Inductive Component := mkComponent {
  comp_name : string;
  props : gmap string value;
  subcomponents : list Component
}.

Global Instance Component_inhabited : Inhabited Component :=
  populate (mkComponent "" ∅ []).

Definition empty_component (kind : string) : Component :=
  mkComponent kind ∅ [].

(** [comp.add(k, v)] on a property the component does not have yet (the
    facade only ever adds to components it has just created, each property
    once). *)
Definition add (k : string) (v : value) (c : Component) : Component :=
  mkComponent (comp_name c) (<[k := v]> (props c)) (subcomponents c).

(** [comp.add(k, n)] for an integer [n]: icalendar takes integers of the
    signed 32-bit range and raises ValueError for others. *)
Definition add_int (k : string) (n : Z) (c : Component) : result Component :=
  if (-2147483648 <=? n)%Z && (n <=? 2147483647)%Z
  then Ok (add k (VInt n) c) else Raise ValueError.

(** [comp[k] = v]. *)
Definition setitem (k : string) (v : value) (c : Component) : Component :=
  mkComponent (comp_name c) (<[k := v]> (props c)) (subcomponents c).

(** [comp.add_component(sub)]. *)
Definition add_component (sub : Component) (c : Component) : Component :=
  mkComponent (comp_name c) (props c) (subcomponents c ++ [sub]).

(** [comp.get(k)] is [props comp !! k]; [comp.get(k, '')] is [get_default]. *)
Definition get_default (c : Component) (k : string) : value :=
  default (VStr "") (props c !! k).

(** ** The world *)

(** A calendar ([caldav.Calendar]) as the facade sees it: its name, its
    address, the objects [events()] lists and the objects [todos()] lists
    ([None] when the collection has no [todos] method, so that the call
    raises AttributeError). *)
Record Calendar := mkCalendar {
  cal_name : string;
  cal_url : string;
  cal_events : list nat;
  cal_todos : option (list nat)
}.

(** Requests that carry arguments to the server. *)
Inductive Request :=
| DateSearch (cal : Calendar) (start end_ : option datetime)
| SaveEvent (cal : Calendar) (ical_data : Component)
| Save (obj : nat) (ical : Component)
| Delete (obj : nat).

(** The world of one run: what [principal.calendars()] answers, the heap of
    calendar objects, the clock ([clock n] is what the n-th call of
    [datetime.datetime.now()] returns) and the trace of requests. *)
Record World := mkWorld {
  calendars : list Calendar;
  heap : gmap nat Component;
  clock : nat → datetime;
  ticks : nat;
  trace : list Request
}.

Definition M (A : Type) : Type := World → result A * World.

Definition ret {A} (a : A) : M A := λ w, (Ok a, w).
Definition raise {A} (e : exn) : M A := λ w, (Raise e, w).
Definition bind {A B} (m : M A) (k : A → M B) : M B :=
  λ w, match m w with
       | (Ok a, w') => k a w'
       | (Raise e, w') => (Raise e, w')
       end.

Notation "'do' x <- m ; k" := (bind m (λ x, k))
  (at level 10, x name, m at level 100, k at level 200).
Notation "m ;; k" := (bind m (λ _, k))
  (at level 100, k at level 200, right associativity).

(** [try: body except AttributeError: handler]. *)
Definition try_except_AttributeError {A} (body handler : M A) : M A :=
  λ w, match body w with
       | (Raise AttributeError, w') => handler w'
       | r => r
       end.

(** A library call that returns or raises. *)
Definition lift {A} (r : result A) : M A :=
  match r with
  | Ok a => ret a
  | Raise e => raise e
  end.

(** *** Primitive operations of the libraries *)

(** [datetime.datetime.now()]. *)
Definition now : M datetime :=
  λ w, (Ok (clock w (ticks w)),
        mkWorld (calendars w) (heap w) (clock w) (S (ticks w)) (trace w)).

Definition log (r : Request) : M unit :=
  λ w, (Ok tt, mkWorld (calendars w) (heap w) (clock w) (ticks w) (trace w ++ [r])).

(** [event.icalendar_component].  A reference of Python cannot dangle; an
    object the heap does not hold reads as the empty component. *)
Definition icalendar_component (obj : nat) : M Component :=
  λ w, (Ok (heap w !!! obj), w).

(** In-place update of the component of an object. *)
Definition modify (obj : nat) (f : Component → Component) : M unit :=
  λ w, (Ok tt,
        mkWorld (calendars w) (<[obj := f (heap w !!! obj)]> (heap w))
                (clock w) (ticks w) (trace w)).

(** [event.save()]: the object's current component goes to the server. *)
Definition save (obj : nat) : M unit :=
  do ical <- icalendar_component obj; log (Save obj ical).

(** [event.delete()]. *)
Definition delete_obj (obj : nat) : M unit := log (Delete obj).

(** [calendar.events()] and [calendar.todos()] on an [Optional[Calendar]]:
    on [None] the attribute lookup raises AttributeError. *)
Definition events (calendar : option Calendar) : M (list nat) :=
  match calendar with
  | None => raise AttributeError
  | Some cal => ret (cal_events cal)
  end.

Definition todos (calendar : option Calendar) : M (list nat) :=
  match calendar with
  | None => raise AttributeError
  | Some cal =>
      match cal_todos cal with
      | None => raise AttributeError
      | Some l => ret l
      end
  end.

(** [calendar.save_event(ical_data)]: the payload goes to the server, which
    answers with a new object holding it. *)
Definition save_event (calendar : option Calendar) (ical_data : Component) : M nat :=
  match calendar with
  | None => raise AttributeError
  | Some cal =>
      log (SaveEvent cal ical_data);;
      λ w, let obj := fresh (dom (heap w)) in
           (Ok obj, mkWorld (calendars w) (<[obj := ical_data]> (heap w))
                            (clock w) (ticks w) (trace w))
  end.

(** Library functions whose results the facade passes along unchanged. *)
Class Library := {
  (** [str.lower()] *)
  str_lower : string → string;
  (** [str(v)] for a property value that is not text *)
  str_nontext : value → string;
  (** [vRecur.from_ical(rrule)]; raises ValueError on a malformed rule *)
  vRecur_from_ical : string → result (list (string * list string));
  (** [dateutil.parser.parse(date_str)] *)
  parser_parse : string → result datetime;
  (** what the server answers to [calendar.date_search(start, end)] *)
  date_search_answer : Calendar → gmap nat Component →
                       option datetime → option datetime → list nat
}.

(** [calendar.date_search(start=start, end=end)]. *)
Definition date_search `{Library} (cal : Calendar)
    (start end_ : option datetime) : M (list nat) :=
  log (DateSearch cal start end_);;
  λ w, (Ok (date_search_answer cal (heap w) start end_), w).

(** [str(ical.get(k))]: text as it is, an absent property as "None". *)
Definition py_str `{Library} (o : option value) : string :=
  match o with
  | None => "None"
  | Some (VStr s) => s
  | Some v => str_nontext v
  end.

(** ** YandexCalendarClient *)

Inductive DAVClient :=
| OAuthClient (token : string)
| BasicClient (username password : string).

Record YandexCalendarClient := mkClient {
  token : option string;
  username : option string;
  password : option string;
  user_id : option string;
  client : DAVClient
}.

(** Truthiness of an [Optional[str]] argument: the string, when it is given
    and not empty. *)
Definition truthy_str (o : option string) : option string :=
  match o with
  | Some s => if Str.truthy s then Some s else None
  | None => None
  end.

(** Truthiness of an [Optional[int]] argument. *)
Definition truthy_int (o : option Z) : option Z :=
  match o with
  | Some n => if Z.eqb n 0 then None else Some n
  | None => None
  end.

(** [YandexCalendarClient.__init__]. *)
Definition init (token username password user_id : option string)
  : result YandexCalendarClient :=
  match truthy_str token with
  | Some t => Ok (mkClient token username password user_id (OAuthClient t))
  | None =>
      match truthy_str username, truthy_str password with
      | Some u, Some p => Ok (mkClient token username password user_id (BasicClient u p))
      | _, _ => Raise ValueError
      end
  end.

Section Facade.
Context `{Library}.

(** [self.get_principal().calendars()]. *)
Definition get_calendars : M (list Calendar) :=
  λ w, (Ok (calendars w), w).

(** The [for cal in calendars] loop of [get_calendar]. *)
Fixpoint get_calendar_loop (name : string) (cals : list Calendar) : option Calendar :=
  match cals with
  | [] => None
  | cal :: rest =>
      if String.eqb (cal_name cal) name then Some cal
      else get_calendar_loop name rest
  end.

Definition get_calendar (name : option string) : M (option Calendar) :=
  do cals <- get_calendars;
  match cals with
  | [] => ret None
  | first :: _ =>
      match truthy_str name with
      | Some n => ret (get_calendar_loop n cals)
      | None => ret (Some first)
      end
  end.

Fixpoint get_todo_calendar_loop (cals : list Calendar) : option Calendar :=
  match cals with
  | [] => None
  | cal :: rest =>
      if Str.contains "todos" (cal_url cal) then Some cal
      else get_todo_calendar_loop rest
  end.

Definition get_todo_calendar : M (option Calendar) :=
  do cals <- get_calendars;
  ret (get_todo_calendar_loop cals).

(** [if not calendar: calendar = self.get_calendar()]. *)
Definition or_get_calendar (calendar : option Calendar) : M (option Calendar) :=
  match calendar with
  | Some cal => ret (Some cal)
  | None => get_calendar None
  end.

(** [if not todo_calendar: todo_calendar = self.get_todo_calendar()]. *)
Definition or_get_todo_calendar (todo_calendar : option Calendar) : M (option Calendar) :=
  match todo_calendar with
  | Some cal => ret (Some cal)
  | None => get_todo_calendar
  end.

Definition get_events (calendar : option Calendar)
    (start end_ : option datetime) : M (list nat) :=
  do calendar <- or_get_calendar calendar;
  match calendar with
  | None => ret []
  | Some cal => date_search cal start end_
  end.

(** [if s: comp.add(k, s)] for a string argument. *)
Definition add_if_str (k : string) (s : string) (c : Component) : Component :=
  if Str.truthy s then add k (VStr s) c else c.

Definition create_event (title description location : string)
    (start end_ : option datetime) (reminder_minutes : option Z)
    (rrule : option string) (calendar : option Calendar) : M nat :=
  do calendar <- or_get_calendar calendar;
  let cal := add "version" (VStr "2.0")
               (add "prodid" (VStr "-//Yandex Calendar CLI//")
                  (empty_component "VCALENDAR")) in
  let event := add "summary" (VStr title) (empty_component "VEVENT") in
  let event := add_if_str "description" description event in
  let event := add_if_str "location" location event in
  do start <- match start with Some s => ret s | None => now end;
  do end_ <- match end_ with
             | Some e => ret e
             | None => do hour <- lift (timedelta 0 1 0); lift (dt_add start hour)
             end;
  let event := add "dtstart" (VDatetime start) event in
  let event := add "dtend" (VDatetime end_) event in
  do stamp <- now;
  let event := add "dtstamp" (VDatetime stamp) event in
  do event <-
    match truthy_int reminder_minutes with
    | Some m =>
        let alarm := add "action" (VStr "DISPLAY") (empty_component "VALARM") in
        let alarm := add "description" (VStr ("Напоминание: " +:+ title)) alarm in
        do trigger <- lift (timedelta 0 0 (- m));
        let alarm := add "trigger" (VTimedelta trigger) alarm in
        ret (add_component alarm event)
    | None => ret event
    end;
  do event <- match truthy_str rrule with
              | Some r =>
                  match vRecur_from_ical r with
                  | Ok rrule_obj => ret (add "rrule" (VRecur rrule_obj) event)
                  | Raise e => raise e
                  end
              | None => ret event
              end;
  let cal := add_component event cal in
  save_event calendar cal.

(** [if s: ical[k] = s] on the component of [obj], for [Optional[str]]. *)
Definition set_if_str (obj : nat) (k : string) (o : option string) : M unit :=
  match truthy_str o with
  | Some s => modify obj (setitem k (VStr s))
  | None => ret tt
  end.

(** [if d: ical[k] = d] for an [Optional[datetime]] (a datetime is
    always true). *)
Definition set_if_dt (obj : nat) (k : string) (o : option datetime) : M unit :=
  match o with
  | Some d => modify obj (setitem k (VDatetime d))
  | None => ret tt
  end.

Fixpoint update_event_loop (uid : string) (title description location : option string)
    (start end_ : option datetime) (events : list nat) : M (option nat) :=
  match events with
  | [] => ret None
  | event :: rest =>
      do ical <- icalendar_component event;
      if String.eqb (py_str (props ical !! "uid")) uid then
        set_if_str event "summary" title;;
        set_if_str event "description" description;;
        set_if_str event "location" location;;
        set_if_dt event "dtstart" start;;
        set_if_dt event "dtend" end_;;
        save event;;
        ret (Some event)
      else update_event_loop uid title description location start end_ rest
  end.

Definition update_event (uid : string) (title description location : option string)
    (start end_ : option datetime) (calendar : option Calendar) : M (option nat) :=
  do calendar <- or_get_calendar calendar;
  do events <- events calendar;
  update_event_loop uid title description location start end_ events.

Fixpoint delete_loop (uid : string) (objs : list nat) : M bool :=
  match objs with
  | [] => ret false
  | obj :: rest =>
      do ical <- icalendar_component obj;
      if String.eqb (py_str (props ical !! "uid")) uid then
        delete_obj obj;; ret true
      else delete_loop uid rest
  end.

Definition delete_event (uid : string) (calendar : option Calendar) : M bool :=
  do calendar <- or_get_calendar calendar;
  do events <- events calendar;
  delete_loop uid events.

(** The text [search_events] matches against. *)
Definition search_text (ical : Component) : string :=
  str_lower (py_str (Some (get_default ical "summary"))
             +:+ py_str (Some (get_default ical "description"))
             +:+ py_str (Some (get_default ical "location"))).

(** The [for event in events] loop of [search_events]; [results] is the
    list built so far. *)
Fixpoint search_events_loop (query : string) (results events : list nat) : M (list nat) :=
  match events with
  | [] => ret results
  | event :: rest =>
      do ical <- icalendar_component event;
      if Str.contains (str_lower query) (search_text ical)
      then search_events_loop query (results ++ [event]) rest
      else search_events_loop query results rest
  end.

Definition search_events (query : string) (calendar : option Calendar) : M (list nat) :=
  do calendar <- or_get_calendar calendar;
  do events <- events calendar;
  search_events_loop query [] events.

(** The fallback loop of [get_todos]: keep the objects of kind VTODO. *)
Fixpoint get_todos_loop (todos events : list nat) : M (list nat) :=
  match events with
  | [] => ret todos
  | event :: rest =>
      do ical <- icalendar_component event;
      if String.eqb (comp_name ical) "VTODO"
      then get_todos_loop (todos ++ [event]) rest
      else get_todos_loop todos rest
  end.

Definition get_todos (todo_calendar : option Calendar) : M (list nat) :=
  do todo_calendar <- or_get_todo_calendar todo_calendar;
  match todo_calendar with
  | None => ret []
  | Some cal =>
      try_except_AttributeError
        (todos (Some cal))
        (do evs <- events (Some cal); get_todos_loop [] evs)
  end.

Definition create_todo (title description : string) (tags : option (list string))
    (priority : Z) (due : option datetime) (todo_calendar : option Calendar)
    : M (option nat) :=
  do todo_calendar <- or_get_todo_calendar todo_calendar;
  match todo_calendar with
  | None => ret None
  | Some tcal =>
      let cal := add "version" (VStr "2.0")
                   (add "prodid" (VStr "-//Yandex Calendar CLI//")
                      (empty_component "VCALENDAR")) in
      let todo := add "summary" (VStr title) (empty_component "VTODO") in
      let todo := add_if_str "description" description todo in
      let todo := match tags with
                  | Some (t :: ts) => add "categories" (VCategories (t :: ts)) todo
                  | _ => todo
                  end in
      do todo <- lift (add_int "priority" priority todo);
      let todo := add "status" (VStr "NEEDS-ACTION") todo in
      do created <- now;
      let todo := add "created" (VDatetime created) todo in
      let todo := match due with
                  | Some d => add "due" (VDatetime d) todo
                  | None => todo
                  end in
      let cal := add_component todo cal in
      do saved <- save_event (Some tcal) cal;
      ret (Some saved)
  end.

Fixpoint complete_todo_loop (uid : string) (todos : list nat) : M bool :=
  match todos with
  | [] => ret false
  | todo :: rest =>
      do ical <- icalendar_component todo;
      if String.eqb (py_str (props ical !! "uid")) uid then
        modify todo (setitem "status" (VStr "COMPLETED"));;
        do t <- now;
        modify todo (setitem "completed" (VDatetime t));;
        save todo;;
        ret true
      else complete_todo_loop uid rest
  end.

Definition complete_todo (uid : string) (todo_calendar : option Calendar) : M bool :=
  do todo_calendar <- or_get_todo_calendar todo_calendar;
  do todos <- get_todos todo_calendar;
  complete_todo_loop uid todos.

Definition delete_todo (uid : string) (todo_calendar : option Calendar) : M bool :=
  do todo_calendar <- or_get_todo_calendar todo_calendar;
  do todos <- get_todos todo_calendar;
  delete_loop uid todos.

(** ** The command line: [main], command [events]

    The outcome of a run is what it prints or the exit code.  The
    rendering of the events ([event_to_dict], [json.dumps]) is not part
    of the model: [PrintEvents l] stands for printing the objects [l]. *)

Record EventsArgs := mkEventsArgs {
  today : bool;
  from_date : option string;
  to_date : option string;
  calendar_name : option string
}.

Record Args := mkArgs {
  arg_token : option string;
  arg_username : option string;
  arg_password : option string;
  arg_user_id : option string;
  arg_events : EventsArgs
}.

Inductive Outcome :=
| PrintEvents (events : list nat)
| Exit (code : Z).

Definition parse_date (date_str : string) : M datetime :=
  match parser_parse date_str with
  | Ok d => ret d
  | Raise e => raise e
  end.

(** The branch [args.command == 'events'] of [main]. *)
Definition main_events (a : EventsArgs) : M Outcome :=
  do range <-
    (if today a then
       do n <- now;
       let start := dt_replace n 0 0 0 0 in
       do day <- lift (timedelta 1 0 0);
       do end_ <- lift (dt_add start day);
       ret (start, end_)
     else
       do start <- match truthy_str (from_date a) with
                   | Some s => parse_date s
                   | None => now
                   end;
       do end_ <- match truthy_str (to_date a) with
                  | Some s => parse_date s
                  | None => do week <- lift (timedelta 7 0 0); lift (dt_add start week)
                  end;
       ret (start, end_));
  do calendar <- get_calendar (calendar_name a);
  match calendar with
  | None => ret (Exit 1)
  | Some cal =>
      do events <- get_events (Some cal) (Some (fst range)) (Some (snd range));
      ret (PrintEvents events)
  end.

(** [main] for the command [events].  Building the argument parser reads
    the clock once (the default of [create --start]); the client is
    created next (exit 1 without authentication); an exception raised in
    the branch ends the run with exit code 1. *)
Definition main (args : Args) : World → Outcome * World :=
  λ w,
    let w := snd (now w) in
    let client :=
      match truthy_str (arg_token args) with
      | Some _ => Some (init (arg_token args) None None (arg_user_id args))
      | None =>
          match truthy_str (arg_username args), truthy_str (arg_password args) with
          | Some _, Some _ =>
              Some (init None (arg_username args) (arg_password args) (arg_user_id args))
          | _, _ => None
          end
      end in
    match client with
    | Some (Ok _) =>
        match main_events (arg_events args) w with
        | (Ok o, w') => (o, w')
        | (Raise _, w') => (Exit 1, w')
        end
    | _ => (Exit 1, w)
    end.

End Facade.

(** A concrete library for running the model: ASCII lowering, a fixed
    rendering of non-text values, a rule parser that accepts every text as
    one FREQ part, a date parser that rejects everything and a server that
    answers a range query with all events of the calendar. *)
Definition ascii_library : Library := {|
  str_lower := Str.lower;
  str_nontext := λ _, "<value>";
  vRecur_from_ical := λ r, Ok [("FREQ", [r])];
  parser_parse := λ _, Raise ValueError;
  date_search_answer := λ cal _ _ _, cal_events cal
|}.

(** ** The command line: every command

    [main] after [parser.parse_args()] succeeded (argparse itself rejects
    a missing required option or a priority outside 1..9 before any of
    this runs).  As for [events], the rendering of objects is not part of
    the model: a document names the objects it prints. *)

(** Two more library functions the command line uses. *)
Class Formatting := {
  (** [d.isoformat()] *)
  isoformat : datetime → string;
  (** [s.strip()] *)
  str_strip : string → string
}.

(** [s.split(',')]: the pieces between the commas, empty pieces included. *)
Fixpoint split_comma (s : string) : list string :=
  match s with
  | EmptyString => [EmptyString]
  | String c s' =>
      if Ascii.eqb c "," then EmptyString :: split_comma s'
      else match split_comma s' with
           | piece :: pieces => String c piece :: pieces
           | [] => [String c EmptyString]
           end
  end.

(** [','.join(pieces)]. *)
Fixpoint join_comma (pieces : list string) : string :=
  match pieces with
  | [] => EmptyString
  | [piece] => piece
  | piece :: rest => piece +:+ String "," (join_comma rest)
  end.

Inductive Command :=
| ListCalendars
| Events (a : EventsArgs)
| Create (title : string) (description location start end_ : option string)
         (reminder : option Z) (rrule : option string)
| Update (uid : string) (title description location start end_ : option string)
| DeleteEvent (uid : string)
| Search (query : string)
| ListTodos
| CreateTodo (title : string) (description tags : option string) (priority : Z)
             (due : option string)
| CompleteTodo (uid : string)
| DeleteTodo (uid : string).

Record CommandLine := mkCommandLine {
  cli_token : option string;
  cli_username : option string;
  cli_password : option string;
  cli_user_id : option string;
  cli_command : Command
}.

(** The uid a status document shows: the one of an object
    ([event.icalendar_component.get('uid')]) or the text of [--uid]. *)
Inductive UidShown :=
| UidOf (obj : nat)
| UidText (uid : string).

Inductive Document :=
| CalendarList (l : list (string * string))
| EventList (l : list nat)
| TodoList (l : list nat)
| Status (status : string) (uid : UidShown).

(** What goes to the error stream before [sys.exit]. *)
Inductive Failure :=
| AuthenticationRequired
| NoCalendarFound
| EventNotFound
| FailedToCreateTodo
| TodoNotFound
| Uncaught (e : exn).

Inductive Reply :=
| Stdout (d : Document)
| Stderr (f : Failure) (code : Z).

(** [x or ""]. *)
Definition or_empty (o : option string) : string :=
  match truthy_str o with
  | Some s => s
  | None => ""
  end.

Section CommandLine.
Context `{Library} `{Formatting}.

(** [parse_date(x) if x else None]. *)
Definition parse_if (o : option string) : M (option datetime) :=
  match truthy_str o with
  | Some s => do d <- parse_date s; ret (Some d)
  | None => ret None
  end.

(** The body of the [try] of [main]; [parser_now] is the clock reading
    behind the default of [create --start]. *)
Definition run_command (parser_now : datetime) (cmd : Command) : M Reply :=
  match cmd with
  | ListCalendars =>
      do cals <- get_calendars;
      ret (Stdout (CalendarList (map (λ cal, (cal_name cal, cal_url cal)) cals)))
  | Events a =>
      do o <- main_events a;
      ret (match o with
           | PrintEvents l => Stdout (EventList l)
           | Exit code => Stderr NoCalendarFound code
           end)
  | Create title description location start end_ reminder rrule =>
      do start <- parse_date (default (isoformat parser_now) start);
      do end_ <- match truthy_str end_ with
                 | Some s => parse_date s
                 | None => do hour <- lift (timedelta 0 1 0); lift (dt_add start hour)
                 end;
      do event <- create_event title (or_empty description) (or_empty location)
                    (Some start) (Some end_) reminder rrule None;
      ret (Stdout (Status "created" (UidOf event)))
  | Update uid title description location start end_ =>
      do start <- parse_if start;
      do end_ <- parse_if end_;
      do event <- update_event uid title description location start end_ None;
      match event with
      | Some ev => ret (Stdout (Status "updated" (UidOf ev)))
      | None => ret (Stderr EventNotFound 1)
      end
  | DeleteEvent uid =>
      do success <- delete_event uid None;
      if success then ret (Stdout (Status "deleted" (UidText uid)))
      else ret (Stderr EventNotFound 1)
  | Search query =>
      do calendar <- get_calendar None;
      match calendar with
      | None => ret (Stderr NoCalendarFound 1)
      | Some cal =>
          do events <- search_events query (Some cal);
          ret (Stdout (EventList events))
      end
  | ListTodos =>
      do todos <- get_todos None;
      ret (Stdout (TodoList todos))
  | CreateTodo title description tags priority due =>
      let tags := match truthy_str tags with
                  | Some s => map str_strip (split_comma s)
                  | None => []
                  end in
      do due <- parse_if due;
      do todo <- create_todo title (or_empty description) (Some tags) priority due None;
      match todo with
      | Some t => ret (Stdout (Status "created" (UidOf t)))
      | None => ret (Stderr FailedToCreateTodo 1)
      end
  | CompleteTodo uid =>
      do success <- complete_todo uid None;
      if success then ret (Stdout (Status "completed" (UidText uid)))
      else ret (Stderr TodoNotFound 1)
  | DeleteTodo uid =>
      do success <- delete_todo uid None;
      if success then ret (Stdout (Status "deleted" (UidText uid)))
      else ret (Stderr TodoNotFound 1)
  end.

(** [main] with every command: the parser is built (one clock reading),
    the client is created (exit 1 without authentication), the command
    runs, and an exception ends the run with exit code 1. *)
Definition main_command (args : CommandLine) : World → Reply * World :=
  λ w,
    let parser_now := clock w (ticks w) in
    let w := snd (now w) in
    let client :=
      match truthy_str (cli_token args) with
      | Some _ => Some (init (cli_token args) None None (cli_user_id args))
      | None =>
          match truthy_str (cli_username args), truthy_str (cli_password args) with
          | Some _, Some _ =>
              Some (init None (cli_username args) (cli_password args) (cli_user_id args))
          | _, _ => None
          end
      end in
    match client with
    | Some (Ok _) =>
        match run_command parser_now (cli_command args) w with
        | (Ok r, w') => (r, w')
        | (Raise e, w') => (Stderr (Uncaught e) 1, w')
        end
    | _ => (Stderr AuthenticationRequired 1, w)
    end.

End CommandLine.

(** A concrete [Formatting] for running the model: every datetime prints
    as one fixed text, and [strip] removes the ASCII white space at both
    ends. *)
Definition is_ascii_space (c : ascii) : bool :=
  let n := nat_of_ascii c in
  ((Nat.leb 9 n && Nat.leb n 13) || (Nat.leb 28 n && Nat.leb n 32))%bool.

Fixpoint lstrip (s : string) : string :=
  match s with
  | String c s' => if is_ascii_space c then lstrip s' else s
  | EmptyString => EmptyString
  end.

Definition strip (s : string) : string :=
  String.rev (lstrip (String.rev (lstrip s))).

Definition ascii_formatting : Formatting := {|
  isoformat := λ _, "0001-01-01T00:00:00";
  str_strip := strip
|}.

(** A library like [ascii_library] whose date parser knows one date. *)
Definition one_date_library : Library := {|
  str_lower := Str.lower;
  str_nontext := λ _, "<value>";
  vRecur_from_ical := λ r, Ok [("FREQ", [r])];
  parser_parse := λ s, if String.eqb s "0001-01-01T00:00:00"
                       then Ok (mkDatetime 1 0 0 0 0) else Raise ValueError;
  date_search_answer := λ cal _ _ _, cal_events cal
|}.

(** [s.split(sep)] for a separator of one character: the pieces between
    the separators, empty pieces included. *)
Fixpoint split_on (sep : ascii) (s : string) : list string :=
  match s with
  | EmptyString => [EmptyString]
  | String c s' =>
      if Ascii.eqb c sep then EmptyString :: split_on sep s'
      else match split_on sep s' with
           | piece :: pieces => String c piece :: pieces
           | [] => [String c EmptyString]
           end
  end.

(** A rule parser after [vRecur.from_ical] of icalendar: the parts between
    the semicolons, each a key and, after the equals sign, its values
    between commas; a part that is not one key and one list of values is
    skipped.  The values stay texts, and no key or value is rejected. *)
Definition rule_parts (r : string) : list (string * list string) :=
  omap (λ part, match split_on "=" part with
                | [key; vals] => Some (key, split_on "," vals)
                | _ => None
                end)
       (split_on ";" r).

(** A library like [ascii_library] with this rule parser. *)
Definition rule_library : Library := {|
  str_lower := Str.lower;
  str_nontext := λ _, "<value>";
  vRecur_from_ical := λ r, Ok (rule_parts r);
  parser_parse := λ _, Raise ValueError;
  date_search_answer := λ cal _ _ _, cal_events cal
|}.

(** ** Vocabulary of the statements *)

(** [needle] occurs in [hay]. *)
Definition is_substring (needle hay : string) : Prop :=
  ∃ a b, hay = a +:+ needle +:+ b.

(** [r] is the first element of [l] that satisfies [P], or [None] when no
    element of [l] does. *)
Definition first_such {A} (P : A → Prop) (l : list A) (r : option A) : Prop :=
  match r with
  | Some x => ∃ before after, l = (before ++ x :: after)%list ∧ P x ∧ Forall (λ y, ¬ P y) before
  | None => Forall (λ y, ¬ P y) l
  end.

(** An optional text argument that is given and not empty. *)
Definition nonempty (o : option string) : Prop :=
  ∃ s, o = Some s ∧ s ≠ "".

(** The address of the calendar contains the task-collection marker. *)
Definition has_marker (cal : Calendar) : Prop :=
  is_substring "todos" (cal_url cal).

(** The identifier the scans compare with [uid]: [str(ical.get('uid'))] of
    the object's component. *)
Definition identifier `{Library} (w : World) (obj : nat) : string :=
  py_str (props (heap w !!! obj) !! "uid").

(** [r] lists exactly the elements of [l] that satisfy [P], in the order
    of [l]. *)
Inductive selects {A} (P : A → Prop) : list A → list A → Prop :=
| selects_nil : selects P [] []
| selects_keep x l r : P x → selects P l r → selects P (x :: l) (x :: r)
| selects_skip x l r : ¬ P x → selects P l r → selects P (x :: l) r.

(** [ical[k] = v] when a value is to be applied, nothing otherwise. *)
Definition field_update (k : string) (v : option value) (c : Component) : Component :=
  match v with
  | Some x => setitem k x c
  | None => c
  end.

(** The two worlds differ at most in the component of the object [m],
    which went from [c] to [f c]. *)
Definition updates_only (m : nat) (f : Component → Component) (w w' : World) : Prop :=
  calendars w' = calendars w ∧ clock w' = clock w ∧ ticks w' = ticks w
  ∧ trace w' = trace w
  ∧ heap w' !!! m = f (heap w !!! m)
  ∧ ∀ o, o ≠ m → heap w' !! o = heap w !! o.

(** The assignments of [update_event], in the order of the source. *)
Definition apply_fields (title description location : option string)
    (start end_ : option datetime) (c : Component) : Component :=
  field_update "dtend" (VDatetime <$> end_)
    (field_update "dtstart" (VDatetime <$> start)
       (field_update "location" (VStr <$> truthy_str location)
          (field_update "description" (VStr <$> truthy_str description)
             (field_update "summary" (VStr <$> truthy_str title) c)))).

(** The world after one more request. *)
Definition logged (w : World) (r : Request) : World :=
  mkWorld (calendars w) (heap w) (clock w) (ticks w) (trace w ++ [r]).

(** The property names of the arguments of [update_event] that were
    passed (not None). *)
Definition supplied_keys (title description location : option string)
    (start end_ : option datetime) : list string :=
  ((if title is Some _ then ["summary"] else [])
   ++ (if description is Some _ then ["description"] else [])
   ++ (if location is Some _ then ["location"] else [])
   ++ (if start is Some _ then ["dtstart"] else [])
   ++ (if end_ is Some _ then ["dtend"] else []))%list.

(** What [update_event] leaves behind when the object [m] matched: no
    other object is touched; of [m], only properties of passed arguments
    may differ, and a non-empty text or a datetime that was passed is the
    new value of its property; the object was saved once, as updated. *)
Definition updated_as (m : nat) (title description location : option string)
    (start end_ : option datetime) (w w' : World) : Prop :=
  calendars w' = calendars w ∧ clock w' = clock w ∧ ticks w' = ticks w
  ∧ trace w' = (trace w ++ [Save m (heap w' !!! m)])%list
  ∧ (∀ o, o ≠ m → heap w' !! o = heap w !! o)
  ∧ comp_name (heap w' !!! m) = comp_name (heap w !!! m)
  ∧ subcomponents (heap w' !!! m) = subcomponents (heap w !!! m)
  ∧ (∀ k, k ∉ supplied_keys title description location start end_ →
          props (heap w' !!! m) !! k = props (heap w !!! m) !! k)
  ∧ (∀ x, title = Some x → x ≠ "" →
          props (heap w' !!! m) !! "summary" = Some (VStr x))
  ∧ (∀ x, description = Some x → x ≠ "" →
          props (heap w' !!! m) !! "description" = Some (VStr x))
  ∧ (∀ x, location = Some x → x ≠ "" →
          props (heap w' !!! m) !! "location" = Some (VStr x))
  ∧ (∀ x, start = Some x → props (heap w' !!! m) !! "dtstart" = Some (VDatetime x))
  ∧ (∀ x, end_ = Some x → props (heap w' !!! m) !! "dtend" = Some (VDatetime x)).

(** What [complete_todo] leaves behind when the object [todo] matched: no
    other object is touched; the status of [todo] is COMPLETED and its
    completion time is the time the clock gave during the call; its other
    properties are as before; the object was saved once, as completed. *)
Definition completed_as (todo : nat) (w w' : World) : Prop :=
  calendars w' = calendars w ∧ clock w' = clock w ∧ ticks w' = S (ticks w)
  ∧ trace w' = (trace w ++ [Save todo (heap w' !!! todo)])%list
  ∧ (∀ o, o ≠ todo → heap w' !! o = heap w !! o)
  ∧ comp_name (heap w' !!! todo) = comp_name (heap w !!! todo)
  ∧ subcomponents (heap w' !!! todo) = subcomponents (heap w !!! todo)
  ∧ props (heap w' !!! todo) !! "status" = Some (VStr "COMPLETED")
  ∧ props (heap w' !!! todo) !! "completed" = Some (VDatetime (clock w (ticks w)))
  ∧ (∀ k, k ≠ "status" → k ≠ "completed" →
          props (heap w' !!! todo) !! k = props (heap w !!! todo) !! k).

(** The world after one reading of the clock. *)
Definition ticked (w : World) : World :=
  mkWorld (calendars w) (heap w) (clock w) (S (ticks w)) (trace w).

(** The command line carries a usable authentication. *)
Definition authenticated (args : Args) : Prop :=
  nonempty (arg_token args)
  ∨ (nonempty (arg_username args) ∧ nonempty (arg_password args)).

(** The display alarm of [create_event]: it fires [minutes] minutes before
    the start (the trigger is the negative duration). *)
Definition display_alarm (title : string) (minutes : Z) : Component :=
  mkComponent "VALARM"
    {[ "action" := VStr "DISPLAY";
       "description" := VStr ("Напоминание: " +:+ title);
       "trigger" := VTimedelta (micros 0 0 (- minutes)) ]} [].

(** The calendar object [create_event] hands to [save_event]: a VCALENDAR
    holding one VEVENT with the given fields and nothing else; an empty
    description or location is left out; there is one display alarm for a
    reminder other than zero and none otherwise; [rule] is the recurrence
    rule to attach, if any. *)
Definition built_event (title description location : string)
    (start end_ stamp : datetime) (reminder_minutes : option Z)
    (rule : option (list (string * list string))) (ical : Component) : Prop :=
  comp_name ical = "VCALENDAR"
  ∧ props ical = {[ "prodid" := VStr "-//Yandex Calendar CLI//";
                    "version" := VStr "2.0" ]}
  ∧ ∃ event,
      subcomponents ical = [event]
      ∧ comp_name event = "VEVENT"
      ∧ props event !! "summary" = Some (VStr title)
      ∧ props event !! "description"
        = (if decide (description = "") then None else Some (VStr description))
      ∧ props event !! "location"
        = (if decide (location = "") then None else Some (VStr location))
      ∧ props event !! "dtstart" = Some (VDatetime start)
      ∧ props event !! "dtend" = Some (VDatetime end_)
      ∧ props event !! "dtstamp" = Some (VDatetime stamp)
      ∧ props event !! "rrule" = VRecur <$> rule
      ∧ (∀ k, k ∉ ["summary"; "description"; "location"; "dtstart"; "dtend";
                   "dtstamp"; "rrule"] → props event !! k = None)
      ∧ subcomponents event
        = match reminder_minutes with
          | Some m => if decide (m = 0) then [] else [display_alarm title m]
          | None => []
          end.

(** The VEVENT of [create_event] once start, end, time stamp and rule are
    settled, and the VCALENDAR around it. *)
Definition event_of (title description location : string)
    (start end_ stamp : datetime) (reminder_minutes : option Z)
    (rule : option (list (string * list string))) : Component :=
  let event :=
    add "dtstamp" (VDatetime stamp)
      (add "dtend" (VDatetime end_)
         (add "dtstart" (VDatetime start)
            (add_if_str "location" location
               (add_if_str "description" description
                  (add "summary" (VStr title) (empty_component "VEVENT")))))) in
  let event :=
    match truthy_int reminder_minutes with
    | Some m =>
        add_component
          (add "trigger" (VTimedelta (micros 0 0 (- m)))
             (add "description" (VStr ("Напоминание: " +:+ title))
                (add "action" (VStr "DISPLAY") (empty_component "VALARM"))))
          event
    | None => event
    end in
  match rule with
  | Some p => add "rrule" (VRecur p) event
  | None => event
  end.

Definition ical_of (event : Component) : Component :=
  add_component event
    (add "version" (VStr "2.0")
       (add "prodid" (VStr "-//Yandex Calendar CLI//") (empty_component "VCALENDAR"))).

(** The world after [n] readings of the clock. *)
Definition after_clock (n : nat) (w : World) : World :=
  mkWorld (calendars w) (heap w) (clock w) (n + ticks w)%nat (trace w).

(** What a successful [create_event] leaves behind: [n] readings of the
    clock, one [save_event] request to the calendar with the object
    [ical], and the new object the server answered with. *)
Definition created_as (cal : Calendar) (ical : Component) (n : nat) (obj : nat)
    (w w' : World) : Prop :=
  calendars w' = calendars w ∧ clock w' = clock w ∧ ticks w' = (n + ticks w)%nat
  ∧ trace w' = (trace w ++ [SaveEvent cal ical])%list
  ∧ heap w !! obj = None ∧ heap w' = <[obj := ical]> (heap w).

(** The calendar a method works on: the one passed, or else the first
    calendar of the principal. *)
Definition works_on (calendar : option Calendar) (w : World) (cal : Calendar) : Prop :=
  calendar = Some cal ∨ (calendar = None ∧ head (calendars w) = Some cal).

(** Title, description and location of an object as one text (an absent
    property counts as the empty text). *)
Definition event_text `{Library} (w : World) (obj : nat) : string :=
  py_str (Some (get_default (heap w !!! obj) "summary"))
  +:+ py_str (Some (get_default (heap w !!! obj) "description"))
  +:+ py_str (Some (get_default (heap w !!! obj) "location")).

(** The lowered query occurs in the lowered text of the object. *)
Definition matches_query `{Library} (query : string) (w : World) (obj : nat) : Prop :=
  is_substring (str_lower query) (str_lower (event_text w obj)).

(** The task calendar a method works on: the one passed, or else the
    first calendar whose address has the marker, if any. *)
Definition tasks_of (todo_calendar : option Calendar) (w : World)
    (r : option Calendar) : Prop :=
  (todo_calendar = r ∧ is_Some r)
  ∨ (todo_calendar = None ∧ first_such has_marker (calendars w) r).

(** The calendar object [create_todo] hands to [save_event]: a VCALENDAR
    holding one VTODO with the given fields and nothing else; an empty
    description or an empty tag list is left out. *)
Definition built_todo (title description : string) (tags : option (list string))
    (priority : Z) (created : datetime) (due : option datetime)
    (ical : Component) : Prop :=
  comp_name ical = "VCALENDAR"
  ∧ props ical = {[ "prodid" := VStr "-//Yandex Calendar CLI//";
                    "version" := VStr "2.0" ]}
  ∧ ∃ todo,
      subcomponents ical = [todo]
      ∧ comp_name todo = "VTODO"
      ∧ subcomponents todo = []
      ∧ props todo !! "summary" = Some (VStr title)
      ∧ props todo !! "description"
        = (if decide (description = "") then None else Some (VStr description))
      ∧ props todo !! "categories"
        = match tags with
          | Some (t :: ts) => Some (VCategories (t :: ts))
          | _ => None
          end
      ∧ props todo !! "priority" = Some (VInt priority)
      ∧ props todo !! "status" = Some (VStr "NEEDS-ACTION")
      ∧ props todo !! "created" = Some (VDatetime created)
      ∧ props todo !! "due" = VDatetime <$> due
      ∧ (∀ k, k ∉ ["summary"; "description"; "categories"; "priority";
                   "status"; "created"; "due"] → props todo !! k = None).

(** Identifier, kind and sub-components of every object are the same in
    the two worlds. *)
Definition same_identities `{Library} (w w' : World) : Prop :=
  ∀ o, identifier w' o = identifier w o
       ∧ comp_name (heap w' !!! o) = comp_name (heap w !!! o)
       ∧ subcomponents (heap w' !!! o) = subcomponents (heap w !!! o).

(** The command line carries a usable authentication. *)
Definition cli_authenticated (args : CommandLine) : Prop :=
  nonempty (cli_token args)
  ∨ (nonempty (cli_username args) ∧ nonempty (cli_password args)).

(** The request is a range query. *)
Definition is_range_query (r : Request) : Prop :=
  match r with
  | DateSearch _ _ _ => True
  | _ => False
  end.

(** The second world has the calendars and objects of the first, and its
    requests followed by range queries only. *)
Definition only_queried (w w' : World) : Prop :=
  calendars w' = calendars w ∧ heap w' = heap w
  ∧ ∃ queries, trace w' = (trace w ++ queries)%list ∧ Forall is_range_query queries.

(** The commands that only list. *)
Definition lists_only (cmd : Command) : Prop :=
  match cmd with
  | ListCalendars | Events _ | Search _ | ListTodos => True
  | _ => False
  end.

(** The number of commas of a text. *)
Fixpoint count_commas (s : string) : nat :=
  match s with
  | EmptyString => 0%nat
  | String c s' => if Ascii.eqb c "," then S (count_commas s') else count_commas s'
  end.

(** The time fields of a datetime are in range. *)
Definition valid_time (d : datetime) : Prop :=
  0 ≤ hour d < 24 ∧ 0 ≤ minute d < 60 ∧ 0 ≤ second d < 60
  ∧ 0 ≤ microsecond d < 1000000.

(** A date of the years 1 to 9999: what a datetime can hold. *)
Definition representable (d : datetime) : Prop :=
  (1 ≤ ordinal d ≤ MAXORDINAL)%Z.

(** A duration a timedelta can hold. *)
Definition fits_timedelta (us : Z) : Prop :=
  (-999999999 ≤ us / us_per_day ≤ 999999999)%Z.

(** An integer that icalendar takes as a property value. *)
Definition int32 (n : Z) : Prop :=
  (-2147483648 ≤ n ≤ 2147483647)%Z.

(** The end of [create_event] exists: it is passed, or one hour after
    [start] is still a datetime. *)
Definition end_in_range (start : datetime) (end_ : option datetime) : Prop :=
  end_ = None → representable (dt_shift start (micros 0 1 0)).

(** The trigger of the alarm of [create_event] exists: no alarm is asked
    for, or the reminder is a duration a timedelta can hold. *)
Definition reminder_in_range (reminder_minutes : option Z) : Prop :=
  ∀ m, reminder_minutes = Some m → m ≠ 0 → fits_timedelta (micros 0 0 (- m)).

(** Worlds and calendars of the examples. *)
Definition epoch : datetime := mkDatetime 1 0 0 0 0.

(** 2026-11-03 20:29:17.123456 and 9999-12-31 23:30:00. *)
Definition evening : datetime := mkDatetime 739923 20 29 17 123456.
Definition last_evening : datetime := mkDatetime MAXORDINAL 23 30 0 0.

Definition world_of (cals : list Calendar) (h : gmap nat Component) : World :=
  mkWorld cals h (λ _, epoch) 0 [].

(** The world [w] with every clock reading answered by [t]. *)
Definition at_time (t : datetime) (w : World) : World :=
  mkWorld (calendars w) (heap w) (λ _, t) (ticks w) (trace w).

Definition ical_event (uid title description location : string) : Component :=
  mkComponent "VEVENT"
    {[ "uid" := VStr uid; "summary" := VStr title;
       "description" := VStr description; "location" := VStr location ]} [].

(** A calendar with two events, as in the unit tests. *)
Definition two_events : Calendar :=
  mkCalendar "cal" "https://x/cal" [1%nat; 2%nat] None.

Definition two_events_world : World :=
  world_of [two_events]
    {[ 1%nat := ical_event "1" "Alpha" "Beta" "Gamma";
       2%nat := ical_event "2" "Other" "text" "place" ]}.

Definition ical_todo (uid : string) : Component :=
  mkComponent "VTODO" {[ "uid" := VStr uid; "status" := VStr "NEEDS-ACTION" ]} [].

(** The two events and a task collection with one open task. *)
Definition tasks : Calendar :=
  mkCalendar "tasks" "https://x/todos/2" [] (Some [7%nat]).

Definition tasks_world : World :=
  world_of [two_events; tasks]
    {[ 1%nat := ical_event "1" "Alpha" "Beta" "Gamma";
       2%nat := ical_event "2" "Other" "text" "place";
       7%nat := ical_todo "todo1" ]}.

(** * Properties *)

(** ** Sequencing *)

Lemma bind_ret {A B} (a : A) (k : A → M B) w : (do x <- ret a; k x) w = k a w.
Proof. reflexivity. Qed.

Lemma bind_now {A} (k : datetime → M A) w :
  (do t <- now; k t) w = k (clock w (ticks w)) (ticked w).
Proof. reflexivity. Qed.

Lemma bind_lift_Ok {A B} (a : A) (k : A → M B) w :
  (do x <- lift (Ok a); k x) w = k a w.
Proof. reflexivity. Qed.

Lemma bind_lift_Raise {A B} e (k : A → M B) w :
  (do x <- lift (Raise e); k x) w = (Raise e, w).
Proof. reflexivity. Qed.

Lemma bind_assoc {A B C} (m : M A) (k : A → M B) (k' : B → M C) w :
  (do y <- (do x <- m; k x); k' y) w = (do x <- m; do y <- k x; k' y) w.
Proof. unfold bind. by destruct (m w) as [[a|e] w']. Qed.

(** ** Strings *)

Lemma startswith_spec p s :
  Str.startswith p s = true ↔ ∃ b, s = p +:+ b.
Proof.
  revert s. induction p as [|a p IH]; intros s; simpl.
  - split; [intros _; by exists s | done].
  - destruct s as [|c s].
    + split; [done | intros [b Hb]; discriminate].
    + destruct (Ascii.eqb a c) eqn:E.
      * apply Ascii.eqb_eq in E as ->. rewrite IH.
        split; intros [b Hb]; exists b; [by rewrite Hb | by injection Hb].
      * apply Ascii.eqb_neq in E.
        split; [done | intros [b Hb]; injection Hb; intros; congruence].
Qed.

(** [needle in hay] is true exactly when [hay] is some text, then
    [needle], then some text. *)
Lemma contains_spec needle hay :
  Str.contains needle hay = true ↔ ∃ a b, hay = a +:+ needle +:+ b.
Proof.
  induction hay as [|c hay IH].
  - cbn [Str.contains]. destruct (Str.startswith needle "") eqn:E.
    + apply startswith_spec in E as [b Hb]. split; [|done].
      intros _. by exists "", b.
    + split; [done|]. intros ([|x a] & b & Hab); [|discriminate].
      assert (Str.startswith needle "" = true) as Hs
        by (apply startswith_spec; by exists b).
      congruence.
  - cbn [Str.contains]. destruct (Str.startswith needle (String c hay)) eqn:E.
    + apply startswith_spec in E as [b Hb]. split; [|done].
      intros _. by exists "", b.
    + rewrite IH. split.
      * intros (a & b & ->). by exists (String c a), b.
      * intros ([|x a] & b & Hab).
        -- assert (Str.startswith needle (String c hay) = true) as Hs
             by (apply startswith_spec; by exists b).
           congruence.
        -- injection Hab as -> ->. by exists a, b.
Qed.

Lemma truthy_str_Some o s :
  truthy_str o = Some s ↔ o = Some s ∧ s ≠ "".
Proof.
  destruct o as [[|c t]|]; simpl.
  - split; [done | intros [[= <-] Hne]; done].
  - split; [intros [= <-]; done | intros [Hs _]; done].
  - split; [done | intros [[=] _]].
Qed.

Lemma truthy_str_nonempty o :
  is_Some (truthy_str o) ↔ nonempty o.
Proof.
  split.
  - intros [s Hs]. exists s. by apply truthy_str_Some.
  - intros (s & -> & Hne). exists s. apply truthy_str_Some. done.
Qed.

Lemma truthy_str_None o :
  truthy_str o = None ↔ ¬ nonempty o.
Proof.
  rewrite <- truthy_str_nonempty. destruct (truthy_str o) as [s|].
  - split; [done | intros Hn; destruct Hn; by eexists].
  - split; [intros _ [x [=]] | done].
Qed.

(** ** Construction *)

(** C3, as amended: construction raises the configuration error
    (ValueError) exactly when the token is missing or empty and the
    username or the password is missing or empty; it succeeds exactly when
    a non-empty token, or a non-empty username together with a non-empty
    password, is given (the token wins when both modes are given). *)
Theorem init_auth_modes (t u p uid : option string) :
  (init t u p uid = Raise ValueError ↔ ¬ (nonempty t ∨ (nonempty u ∧ nonempty p)))
  ∧ ((∃ c, init t u p uid = Ok c) ↔ nonempty t ∨ (nonempty u ∧ nonempty p))
  ∧ (∀ s, t = Some s → s ≠ "" → init t u p uid = Ok (mkClient t u p uid (OAuthClient s))).
Proof.
  unfold init.
  destruct (truthy_str t) as [s|] eqn:Et.
  - assert (nonempty t) as Ht by (apply truthy_str_nonempty; eauto).
    apply truthy_str_Some in Et as [-> Hs].
    split; [|split].
    + split; [done | intros Hn; exfalso; apply Hn; by left].
    + split; [by left | by eexists].
    + by intros s' [= <-] _.
  - apply truthy_str_None in Et.
    assert (∀ s, t = Some s → s ≠ "" → False) as Hno
      by (intros s -> Hs; apply Et; by exists s).
    destruct (truthy_str u) as [a|] eqn:Eu.
    + destruct (truthy_str p) as [b|] eqn:Ep.
      * assert (nonempty u ∧ nonempty p) as Hup
          by (split; apply truthy_str_nonempty; eauto).
        split; [|split].
        -- split; [done | intros Hn; exfalso; apply Hn; by right].
        -- split; [by right | by eexists].
        -- intros s Hs Hne. destruct (Hno s Hs Hne).
      * apply truthy_str_None in Ep.
        split; [|split].
        -- split; [|done]. intros _ [?|[_ ?]]; done.
        -- split; [intros [c [=]] | intros [?|[_ ?]]; done].
        -- intros s Hs Hne. destruct (Hno s Hs Hne).
    + apply truthy_str_None in Eu.
      split; [|split].
      * split; [|done]. intros _ [?|[? _]]; done.
      * split; [intros [c [=]] | intros [?|[? _]]; done].
      * intros s Hs Hne. destruct (Hno s Hs Hne).
Qed.

Lemma init_auth_modes_witness :
  init (Some "y0_token") None None None
  = Ok (mkClient (Some "y0_token") None None None (OAuthClient "y0_token")).
Proof.
  apply (proj2 (proj2 (init_auth_modes (Some "y0_token") None None None)) "y0_token").
  - reflexivity.
  - discriminate.
Defined.

(** C3, as stated, fails: an empty token is a supplied token, an empty
    password completes a supplied pair, and construction raises all the
    same. *)
Lemma init_empty_token_raises :
  is_Some (Some "" : option string)
  ∧ init (Some "") None None None = Raise ValueError
  ∧ init None (Some "user") (Some "") None = Raise ValueError.
Proof. split; [by eexists | split; reflexivity]. Qed.

(** ** Calendar resolution *)

(** A scan that returns the first element a boolean test accepts computes
    [first_such] of the property the test decides. *)
Lemma first_such_scan {A} (P : A → Prop) (test : A → bool)
    (scan : list A → option A) :
  (∀ x, test x = true ↔ P x) →
  scan [] = None →
  (∀ x l, scan (x :: l) = if test x then Some x else scan l) →
  ∀ l, first_such P l (scan l).
Proof.
  intros Htest Hnil Hcons l. induction l as [|x l IH].
  - rewrite Hnil. constructor.
  - rewrite Hcons. destruct (test x) eqn:E.
    + exists [], l. split; [done|]. split; [by apply Htest | constructor].
    + assert (¬ P x) as Hx by (rewrite <- Htest; congruence).
      destruct (scan l) as [y|]; simpl in *.
      * destruct IH as (before & after & -> & Hy & Hb).
        exists (x :: before), after. split; [done|]. split; [done|].
        by constructor.
      * by constructor.
Qed.

Lemma get_calendar_loop_first n cals :
  first_such (λ c, cal_name c = n) cals (get_calendar_loop n cals).
Proof.
  apply (first_such_scan _ (λ c, String.eqb (cal_name c) n)); [|done..].
  intros c. apply String.eqb_eq.
Qed.

Lemma get_todo_calendar_loop_first cals :
  first_such has_marker cals (get_todo_calendar_loop cals).
Proof.
  apply (first_such_scan _ (λ c, Str.contains "todos" (cal_url c))); [|done..].
  intros c. apply contains_spec.
Qed.

(** C5, as amended: with a non-empty name, [get_calendar] returns the
    first calendar whose name equals it (exact comparison) and None when
    there is none; with the name omitted or empty it returns the first
    calendar of the list, and None when the list is empty.  The world is
    left as it was. *)
Theorem get_calendar_resolution (w : World) :
  (∀ n, n ≠ "" →
     ∃ r, get_calendar (Some n) w = (Ok r, w)
          ∧ first_such (λ c, cal_name c = n) (calendars w) r)
  ∧ get_calendar None w = (Ok (head (calendars w)), w)
  ∧ get_calendar (Some "") w = (Ok (head (calendars w)), w).
Proof.
  unfold get_calendar, get_calendars, bind, ret.
  split; [|split].
  - intros n Hn.
    assert (truthy_str (Some n) = Some n) as -> by (by apply truthy_str_Some).
    destruct (calendars w) as [|first rest] eqn:E.
    + exists None. split; [done | constructor].
    + eexists. split; [done|]. apply get_calendar_loop_first.
  - by destruct (calendars w).
  - by destruct (calendars w).
Qed.

Lemma get_calendar_resolution_witness :
  ∃ r, get_calendar (Some "Work")
         (world_of [mkCalendar "Home" "https://x/1" [] None;
                    mkCalendar "Work" "https://x/2" [] None] ∅)
       = (Ok r, world_of [mkCalendar "Home" "https://x/1" [] None;
                          mkCalendar "Work" "https://x/2" [] None] ∅)
       ∧ first_such (λ c, cal_name c = "Work")
           [mkCalendar "Home" "https://x/1" [] None;
            mkCalendar "Work" "https://x/2" [] None] r.
Proof.
  apply (proj1 (get_calendar_resolution
                  (world_of [mkCalendar "Home" "https://x/1" [] None;
                             mkCalendar "Work" "https://x/2" [] None] ∅)) "Work").
  discriminate.
Defined.

(** C5, as stated, fails: the empty name is a supplied name that no
    calendar carries, and [get_calendar] answers with the first calendar
    instead of None. *)
Lemma get_calendar_empty_name_returns_first :
  cal_name (mkCalendar "Home" "https://x/1" [] None) ≠ ""
  ∧ fst (get_calendar (Some "") (world_of [mkCalendar "Home" "https://x/1" [] None] ∅))
    = Ok (Some (mkCalendar "Home" "https://x/1" [] None)).
Proof. split; [discriminate | reflexivity]. Qed.

(** C6: [get_todo_calendar] returns the first calendar whose address
    contains the marker "todos", and None when no address contains it,
    whatever other calendars there are.  The world is left as it was. *)
Theorem get_todo_calendar_first_marked (w : World) :
  ∃ r, get_todo_calendar w = (Ok r, w) ∧ first_such has_marker (calendars w) r.
Proof.
  unfold get_todo_calendar, get_calendars, bind, ret.
  eexists. split; [done|]. apply get_todo_calendar_loop_first.
Qed.

(** ** The monad *)

Lemma or_get_calendar_works_on calendar w cal :
  works_on calendar w cal → or_get_calendar calendar w = (Ok (Some cal), w).
Proof.
  intros [-> | [-> Hhd]]; [done|].
  unfold or_get_calendar, get_calendar, get_calendars, bind, ret.
  destruct (calendars w) as [|first rest]; simplify_eq/=. done.
Qed.

Lemma or_get_calendar_no_calendar w :
  calendars w = [] → or_get_calendar None w = (Ok None, w).
Proof.
  intros E. unfold or_get_calendar, get_calendar, get_calendars, bind, ret.
  by rewrite E.
Qed.

Lemma bind_icalendar_component {A} obj (k : Component → M A) w :
  (do ical <- icalendar_component obj; k ical) w = k (heap w !!! obj) w.
Proof. reflexivity. Qed.

Lemma updates_only_refl m w : updates_only m id w w.
Proof. by repeat split. Qed.

Lemma updates_only_trans m f g w w1 w2 :
  updates_only m f w w1 → updates_only m g w1 w2 → updates_only m (g ∘ f) w w2.
Proof.
  intros (?&?&?&?&Hm&Ho) (?&?&?&?&Hm'&Ho').
  repeat split; try congruence.
  - simpl. rewrite Hm'. by rewrite Hm.
  - intros o Hne. rewrite Ho' by done. by apply Ho.
Qed.

Lemma modify_updates m f w :
  ∃ w', modify m f w = (Ok tt, w') ∧ updates_only m f w w'.
Proof.
  eexists. split; [reflexivity|].
  unfold updates_only. simpl. repeat split.
  - by rewrite lookup_total_insert_eq.
  - intros o Hne. by rewrite lookup_insert_ne.
Qed.

Lemma first_such_exists {A} (P : A → Prop) `{∀ x, Decision (P x)} (l : list A) :
  ∃ r, first_such P l r.
Proof.
  induction l as [|x l [r IH]].
  - exists None. constructor.
  - destruct (decide (P x)) as [Hx|Hx].
    + exists (Some x), [], l. split; [done|]. split; [done | constructor].
    + destruct r as [y|]; simpl in IH.
      * destruct IH as (before & after & -> & Hy & Hb).
        exists (Some y), (x :: before), after. split; [done|]. split; [done|].
        by constructor.
      * exists None. by constructor.
Qed.

(** ** update_event *)

Lemma field_update_lookup k v c k' :
  props (field_update k v c) !! k'
  = match v with
    | Some x => if decide (k = k') then Some x else props c !! k'
    | None => props c !! k'
    end.
Proof. destruct v; simpl; [apply lookup_insert | done]. Qed.

Lemma field_update_shape k v c :
  comp_name (field_update k v c) = comp_name c
  ∧ subcomponents (field_update k v c) = subcomponents c.
Proof. by destruct v. Qed.

Lemma set_if_str_updates m k o w :
  ∃ w', set_if_str m k o w = (Ok tt, w')
        ∧ updates_only m (field_update k (VStr <$> truthy_str o)) w w'.
Proof.
  unfold set_if_str. destruct (truthy_str o) as [s|]; simpl.
  - apply modify_updates.
  - exists w. split; [done|]. apply (updates_only_refl m w).
Qed.

Lemma set_if_dt_updates m k o w :
  ∃ w', set_if_dt m k o w = (Ok tt, w')
        ∧ updates_only m (field_update k (VDatetime <$> o)) w w'.
Proof.
  unfold set_if_dt. destruct o as [d|]; simpl.
  - apply modify_updates.
  - exists w. split; [done|]. apply (updates_only_refl m w).
Qed.

Section UpdateEvent.
Context `{Library}.
Implicit Types (uid : string) (t d l : option string) (s e : option datetime).

Lemma update_event_loop_no_match uid t d l s e evs w :
  Forall (λ o, identifier w o ≠ uid) evs →
  update_event_loop uid t d l s e evs w = (Ok None, w).
Proof.
  induction 1 as [|o evs Hne _ IH]; [done|].
  cbn [update_event_loop]. unfold bind at 1, icalendar_component.
  unfold identifier in Hne. apply String.eqb_neq in Hne. by rewrite Hne.
Qed.

Lemma update_event_loop_match uid t d l s e before m after w :
  Forall (λ o, identifier w o ≠ uid) before →
  identifier w m = uid →
  ∃ w2, updates_only m (apply_fields t d l s e) w w2
        ∧ update_event_loop uid t d l s e (before ++ m :: after) w
          = (Ok (Some m), logged w2 (Save m (heap w2 !!! m))).
Proof.
  intros Hb Hm. induction Hb as [|o before Hne _ IH].
  - cbn [app update_event_loop]. unfold bind at 1, icalendar_component.
    unfold identifier in Hm. apply String.eqb_eq in Hm. rewrite Hm.
    destruct (set_if_str_updates m "summary" t w) as (w1 & E1 & U1).
    destruct (set_if_str_updates m "description" d w1) as (w2 & E2 & U2).
    destruct (set_if_str_updates m "location" l w2) as (w3 & E3 & U3).
    destruct (set_if_dt_updates m "dtstart" s w3) as (w4 & E4 & U4).
    destruct (set_if_dt_updates m "dtend" e w4) as (w5 & E5 & U5).
    exists w5. split.
    + apply (updates_only_trans _ _ _ _ _ _
               (updates_only_trans _ _ _ _ _ _
                  (updates_only_trans _ _ _ _ _ _
                     (updates_only_trans _ _ _ _ _ _ U1 U2) U3) U4) U5).
    + unfold bind. rewrite E1, E2, E3, E4, E5. reflexivity.
  - cbn [app update_event_loop]. unfold bind at 1, icalendar_component.
    unfold identifier in Hne. apply String.eqb_neq in Hne. by rewrite Hne.
Qed.

Lemma apply_fields_shape t d l s e c :
  comp_name (apply_fields t d l s e c) = comp_name c
  ∧ subcomponents (apply_fields t d l s e c) = subcomponents c.
Proof.
  unfold apply_fields.
  split; repeat (rewrite (proj1 (field_update_shape _ _ _))
                 || rewrite (proj2 (field_update_shape _ _ _))); done.
Qed.

Lemma apply_fields_frame_truthy t d l s e c k :
  k ∉ supplied_keys (truthy_str t) (truthy_str d) (truthy_str l) s e →
  props (apply_fields t d l s e c) !! k = props c !! k.
Proof.
  intros Hk. unfold apply_fields. rewrite !field_update_lookup.
  unfold supplied_keys in Hk.
  rewrite !not_elem_of_app in Hk. destruct Hk as (Ht & Hd & Hl & Hs & He).
  destruct e as [x|]; simpl;
    [case_decide; [subst; exfalso; apply He; by left|]|];
  (destruct s as [y|]; simpl;
    [case_decide; [subst; exfalso; apply Hs; by left|]|]);
  (destruct (truthy_str l) as [z|]; simpl;
    [case_decide; [subst; exfalso; apply Hl; by left|]|]);
  (destruct (truthy_str d) as [u|]; simpl;
    [case_decide; [subst; exfalso; apply Hd; by left|]|]);
  (destruct (truthy_str t) as [v|]; simpl;
    [case_decide; [subst; exfalso; apply Ht; by left|]|]);
  done.
Qed.

Lemma supplied_keys_truthy t d l s e k :
  k ∈ supplied_keys (truthy_str t) (truthy_str d) (truthy_str l) s e →
  k ∈ supplied_keys t d l s e.
Proof.
  unfold supplied_keys. rewrite !elem_of_app.
  assert (∀ (o : option string) key,
            k ∈ (if truthy_str o is Some _ then [key] else []) →
            k ∈ (if o is Some _ then [key] else [])) as Hsub.
  { intros [x|] key; simpl; [|done]. destruct (Str.truthy x); [done|].
    intros Hin. by apply elem_of_nil in Hin. }
  intros [?|[?|[?|?]]]; auto.
Qed.

Lemma apply_fields_frame t d l s e c k :
  k ∉ supplied_keys t d l s e →
  props (apply_fields t d l s e c) !! k = props c !! k.
Proof.
  intros Hk. apply apply_fields_frame_truthy.
  intros Hin. apply Hk. by apply supplied_keys_truthy.
Qed.

Lemma apply_fields_values t d l s e c :
  (∀ x, t = Some x → x ≠ "" → props (apply_fields t d l s e c) !! "summary" = Some (VStr x))
  ∧ (∀ x, d = Some x → x ≠ "" → props (apply_fields t d l s e c) !! "description" = Some (VStr x))
  ∧ (∀ x, l = Some x → x ≠ "" → props (apply_fields t d l s e c) !! "location" = Some (VStr x))
  ∧ (∀ x, s = Some x → props (apply_fields t d l s e c) !! "dtstart" = Some (VDatetime x))
  ∧ (∀ x, e = Some x → props (apply_fields t d l s e c) !! "dtend" = Some (VDatetime x)).
Proof.
  unfold apply_fields.
  repeat split; intros x -> ; try intros Hx;
    try (assert (truthy_str (Some x) = Some x) as Ex by (by apply truthy_str_Some));
    rewrite !field_update_lookup; try rewrite Ex; simpl;
    repeat match goal with
           | |- context [VDatetime <$> ?o] => destruct o; simpl
           | |- context [VStr <$> truthy_str ?o] => destruct (truthy_str o); simpl
           end;
    repeat case_decide; done.
Qed.

Lemma updated_as_logged m t d l s e w w2 :
  updates_only m (apply_fields t d l s e) w w2 →
  updated_as m t d l s e w (logged w2 (Save m (heap w2 !!! m))).
Proof.
  intros (Hc & Hk & Ht & Htr & Hm & Ho).
  unfold updated_as, logged. simpl. rewrite Hm, Htr.
  destruct (apply_fields_shape t d l s e (heap w !!! m)) as [Hn Hsub].
  destruct (apply_fields_values t d l s e (heap w !!! m)) as (V1 & V2 & V3 & V4 & V5).
  repeat split; try done.
  intros k Hk'. by apply apply_fields_frame.
Qed.

Lemma or_get_calendar_reads calendar w :
  ∃ r, or_get_calendar calendar w = (Ok r, w).
Proof.
  destruct calendar as [cal|]; [by eexists|].
  unfold or_get_calendar, get_calendar, get_calendars, bind, ret.
  destruct (calendars w); [by eexists|].
  by eexists.
Qed.

(** Once the calendar is settled, [update_event] is its loop over the
    events of the calendar; without a calendar, [calendar.events()]
    raises. *)
Lemma update_event_resolved uid t d l s e calendar w r :
  or_get_calendar calendar w = (Ok r, w) →
  update_event uid t d l s e calendar w
  = match r with
    | Some cal => update_event_loop uid t d l s e (cal_events cal) w
    | None => (Raise AttributeError, w)
    end.
Proof. intros E. unfold update_event, bind. rewrite E. by destruct r. Qed.

(** Every run of [update_event] either leaves the world as it was or
    applies the fields to one object and saves it. *)
Lemma update_event_run uid t d l s e calendar w :
  snd (update_event uid t d l s e calendar w) = w
  ∨ ∃ m w2, updates_only m (apply_fields t d l s e) w w2
            ∧ snd (update_event uid t d l s e calendar w)
              = logged w2 (Save m (heap w2 !!! m)).
Proof.
  destruct (or_get_calendar_reads calendar w) as [r Er].
  rewrite (update_event_resolved _ _ _ _ _ _ _ _ _ Er).
  destruct r as [cal|]; [|by left].
  destruct (first_such_exists (λ o, identifier w o = uid) (cal_events cal))
    as [[m|] Hr]; simpl in Hr.
  - destruct Hr as (before & after & -> & Hm & Hb).
    destruct (update_event_loop_match uid t d l s e before m after w Hb Hm)
      as (w2 & U & ->).
    right. by exists m, w2.
  - left. by rewrite update_event_loop_no_match.
Qed.

Lemma update_event_frame uid t d l s e calendar w o k :
  k ∉ supplied_keys (truthy_str t) (truthy_str d) (truthy_str l) s e →
  props (heap (snd (update_event uid t d l s e calendar w)) !!! o) !! k
  = props (heap w !!! o) !! k.
Proof.
  intros Hk.
  destruct (update_event_run uid t d l s e calendar w)
    as [-> | (m & w2 & (_ & _ & _ & _ & Hm & Ho) & ->)]; [done|].
  simpl. destruct (decide (o = m)) as [->|Hne].
  - rewrite Hm. by apply apply_fields_frame_truthy.
  - by rewrite !lookup_total_alt, (Ho o Hne).
Qed.

Lemma update_event_loop_empty_text uid t d l s e evs w :
  update_event_loop uid (Some "") d l s e evs w = update_event_loop uid None d l s e evs w
  ∧ update_event_loop uid t (Some "") l s e evs w = update_event_loop uid t None l s e evs w
  ∧ update_event_loop uid t d (Some "") s e evs w = update_event_loop uid t d None s e evs w.
Proof.
  induction evs as [|o evs IH]; [done|].
  cbn [update_event_loop]. rewrite !bind_icalendar_component.
  destruct (String.eqb _ uid); [repeat split; reflexivity | apply IH].
Qed.

End UpdateEvent.

(** C2: in a calendar with two events of which exactly one has the
    identifier [uid], [update_event] touches no object but the matching
    one; of the matching one, only properties of passed arguments may
    change (an omitted field keeps its value), a passed non-empty text or
    datetime becomes the value of its property; the object is saved once,
    as updated, and is the result.  When neither identifier equals [uid],
    the result is None and the world is as it was. *)
Theorem update_event_two_events `{Library} (calendar : option Calendar)
    (cal : Calendar) (a b : nat) (uid : string) (t d l : option string)
    (s e : option datetime) (w : World) :
  works_on calendar w cal →
  cal_events cal = [a; b] →
  (∀ m, (m = a ∧ identifier w b ≠ uid) ∨ (m = b ∧ identifier w a ≠ uid) →
        identifier w m = uid →
        ∃ w', update_event uid t d l s e calendar w = (Ok (Some m), w')
              ∧ updated_as m t d l s e w w')
  ∧ (identifier w a ≠ uid → identifier w b ≠ uid →
     update_event uid t d l s e calendar w = (Ok None, w)).
Proof.
  intros Hcal Hev.
  rewrite (update_event_resolved _ _ _ _ _ _ _ _ _ (or_get_calendar_works_on _ _ _ Hcal)).
  rewrite Hev. split.
  - intros m [[-> Hb] | [-> Ha]] Hm.
    + destruct (update_event_loop_match uid t d l s e [] a [b] w) as (w2 & U & E);
        [constructor | done |].
      cbn [app] in E. rewrite E. eexists. split; [done|]. by apply updated_as_logged.
    + destruct (update_event_loop_match uid t d l s e [a] b [] w) as (w2 & U & E);
        [by repeat constructor | done |].
      cbn [app] in E. rewrite E. eexists. split; [done|]. by apply updated_as_logged.
  - intros Ha Hb. apply update_event_loop_no_match. by repeat constructor.
Qed.

Lemma update_event_two_events_witness :
  ∃ w', update_event (H := ascii_library) "1" (Some "new") None None None None
          (Some two_events) two_events_world = (Ok (Some 1%nat), w')
        ∧ updated_as
            1%nat (Some "new") None None None None two_events_world w'.
Proof.
  apply (proj1 (update_event_two_events (H := ascii_library)
                  (Some two_events) two_events 1%nat 2%nat "1"
                  (Some "new") None None None None two_events_world
                  (or_introl eq_refl) eq_refl) 1%nat).
  - left. split; [reflexivity | vm_compute; discriminate].
  - vm_compute. reflexivity.
Defined.

Lemma not_in_optional_key {A} (o : option A) (key k : string) :
  (o = None ∨ k ≠ key) → k ∉ (if o is Some _ then [key] else []).
Proof.
  intros [-> | Hne]; [apply not_elem_of_nil|].
  destruct o; [|apply not_elem_of_nil].
  apply not_elem_of_cons. split; [done | apply not_elem_of_nil].
Qed.

Lemma not_in_supplied_keys (t d l : option string) (s e : option datetime) k :
  (t = None ∨ k ≠ "summary") → (d = None ∨ k ≠ "description") →
  (l = None ∨ k ≠ "location") → (s = None ∨ k ≠ "dtstart") →
  (e = None ∨ k ≠ "dtend") →
  k ∉ supplied_keys t d l s e.
Proof.
  intros Ht Hd Hl Hs He. unfold supplied_keys. rewrite !not_elem_of_app.
  repeat split; by apply not_in_optional_key.
Qed.

(** C10: an empty text passed as title, description or location has the
    effect of an omitted argument (the run is the same, result and world),
    and the property it names keeps its value in every object, the matched
    one included: it is neither cleared nor set to the empty text. *)
Theorem update_event_empty_text_as_omitted `{Library} (uid : string)
    (t d l : option string) (s e : option datetime)
    (calendar : option Calendar) (w : World) :
  (update_event uid (Some "") d l s e calendar w = update_event uid None d l s e calendar w
   ∧ update_event uid t (Some "") l s e calendar w = update_event uid t None l s e calendar w
   ∧ update_event uid t d (Some "") s e calendar w = update_event uid t d None s e calendar w)
  ∧ (∀ o, props (heap (snd (update_event uid (Some "") d l s e calendar w)) !!! o) !! "summary"
          = props (heap w !!! o) !! "summary")
  ∧ (∀ o, props (heap (snd (update_event uid t (Some "") l s e calendar w)) !!! o) !! "description"
          = props (heap w !!! o) !! "description")
  ∧ (∀ o, props (heap (snd (update_event uid t d (Some "") s e calendar w)) !!! o) !! "location"
          = props (heap w !!! o) !! "location").
Proof.
  split; [|split; [|split]].
  - destruct (or_get_calendar_reads calendar w) as [r Er].
    rewrite !(update_event_resolved _ _ _ _ _ _ _ _ _ Er).
    destruct r as [cal|]; [|done].
    apply update_event_loop_empty_text.
  - intros o. apply update_event_frame.
    apply not_in_supplied_keys; (by left) || (by right).
  - intros o. apply update_event_frame.
    apply not_in_supplied_keys; (by left) || (by right).
  - intros o. apply update_event_frame.
    apply not_in_supplied_keys; (by left) || (by right).
Qed.

(** ** Operations without a calendar *)

Section NoCalendar.
Context `{Library}.

Lemma delete_event_resolved uid calendar w r :
  or_get_calendar calendar w = (Ok r, w) →
  delete_event uid calendar w
  = match r with
    | Some cal => delete_loop uid (cal_events cal) w
    | None => (Raise AttributeError, w)
    end.
Proof. intros E. unfold delete_event, bind. rewrite E. by destruct r. Qed.

Lemma search_events_resolved query calendar w r :
  or_get_calendar calendar w = (Ok r, w) →
  search_events query calendar w
  = match r with
    | Some cal => search_events_loop query [] (cal_events cal) w
    | None => (Raise AttributeError, w)
    end.
Proof. intros E. unfold search_events, bind. rewrite E. by destruct r. Qed.

(** C1 fails on the code: with an empty calendar list no calendar
    resolves, and [update_event], [delete_event] and [search_events] then
    raise AttributeError (from [calendar.events()] on None) instead of
    returning None, False or the empty list. *)
Theorem events_operations_raise_without_calendar
    (h : gmap nat Component) (clk : nat → datetime) (tk : nat) (tr : list Request)
    (uid query : string) (t d l : option string) (s e : option datetime) :
  update_event uid t d l s e None (mkWorld [] h clk tk tr)
  = (Raise AttributeError, mkWorld [] h clk tk tr)
  ∧ delete_event uid None (mkWorld [] h clk tk tr)
    = (Raise AttributeError, mkWorld [] h clk tk tr)
  ∧ search_events query None (mkWorld [] h clk tk tr)
    = (Raise AttributeError, mkWorld [] h clk tk tr).
Proof. repeat split. Qed.

(** X2: the other operations report the same situation by their result:
    None, the empty list or False, and no request is made. *)
Theorem sibling_operations_return_without_calendar
    (h : gmap nat Component) (clk : nat → datetime) (tk : nat) (tr : list Request)
    (uid title description : string) (start end_ due : option datetime)
    (tags : option (list string)) (priority : Z) :
  get_calendar None (mkWorld [] h clk tk tr) = (Ok None, mkWorld [] h clk tk tr)
  ∧ get_todo_calendar (mkWorld [] h clk tk tr) = (Ok None, mkWorld [] h clk tk tr)
  ∧ get_events None start end_ (mkWorld [] h clk tk tr) = (Ok [], mkWorld [] h clk tk tr)
  ∧ get_todos None (mkWorld [] h clk tk tr) = (Ok [], mkWorld [] h clk tk tr)
  ∧ create_todo title description tags priority due None (mkWorld [] h clk tk tr)
    = (Ok None, mkWorld [] h clk tk tr)
  ∧ complete_todo uid None (mkWorld [] h clk tk tr) = (Ok false, mkWorld [] h clk tk tr)
  ∧ delete_todo uid None (mkWorld [] h clk tk tr) = (Ok false, mkWorld [] h clk tk tr).
Proof. repeat split. Qed.

(** C4 fails on the code at the empty calendar list: no event matches,
    and [search_events] raises AttributeError instead of returning the
    empty list. *)
Theorem search_events_raises_without_calendar
    (h : gmap nat Component) (clk : nat → datetime) (tk : nat) (tr : list Request)
    (query : string) :
  search_events query None (mkWorld [] h clk tk tr)
  = (Raise AttributeError, mkWorld [] h clk tk tr).
Proof. reflexivity. Qed.

End NoCalendar.

(** ** search_events *)

Section SearchEvents.
Context `{Library}.

Lemma search_events_loop_selects query acc evs w :
  ∃ r, selects (matches_query query w) evs r
       ∧ search_events_loop query acc evs w = (Ok (acc ++ r)%list, w).
Proof.
  revert acc. induction evs as [|ev evs IH]; intros acc.
  - exists []. split; [constructor|]. simpl. by rewrite app_nil_r.
  - cbn [search_events_loop]. rewrite bind_icalendar_component.
    destruct (Str.contains (str_lower query) (search_text (heap w !!! ev))) eqn:E.
    + destruct (IH (acc ++ [ev])%list) as (r & Hr & ->).
      exists (ev :: r). split.
      * constructor; [|done]. by apply contains_spec in E.
      * by rewrite <- app_assoc.
    + destruct (IH acc) as (r & Hr & ->).
      exists r. split; [|done].
      apply selects_skip; [|done].
      intros Hm. apply contains_spec in Hm.
      unfold search_text in E. unfold event_text in Hm. congruence.
Qed.

(** X1: when a calendar is passed, or the principal has calendars,
    [search_events] returns exactly the events of the calendar whose
    lowered title + description + location contains the lowered query, in
    the order of the calendar, and changes nothing. *)
Theorem search_events_selects (query : string) (calendar : option Calendar)
    (cal : Calendar) (w : World) :
  works_on calendar w cal →
  ∃ r, search_events query calendar w = (Ok r, w)
       ∧ selects (matches_query query w) (cal_events cal) r.
Proof.
  intros Hcal.
  rewrite (search_events_resolved _ _ _ _ (or_get_calendar_works_on _ _ _ Hcal)).
  destruct (search_events_loop_selects query [] (cal_events cal) w) as (r & Hr & ->).
  by exists r.
Qed.

End SearchEvents.

(** The example of the unit test: "alp" and "ALP" both find the event
    titled "Alpha" and not the other one. *)
Lemma search_events_alpha :
  search_events (H := ascii_library) "alp" (Some two_events) two_events_world
  = (Ok [1%nat], two_events_world)
  ∧ search_events (H := ascii_library) "ALP" None two_events_world
    = (Ok [1%nat], two_events_world).
Proof. split; vm_compute; reflexivity. Qed.

Lemma search_events_selects_witness :
  ∃ r, search_events (H := ascii_library) "ALP" None two_events_world
       = (Ok r, two_events_world)
       ∧ selects (matches_query (H := ascii_library) "ALP" two_events_world)
           (cal_events two_events) r.
Proof.
  apply (search_events_selects (H := ascii_library) "ALP" None two_events two_events_world).
  right. split; reflexivity.
Defined.

(** ** Tasks *)

Section Todos.
Context `{Library}.

Lemma or_get_todo_calendar_reads todo_calendar w :
  ∃ r, or_get_todo_calendar todo_calendar w = (Ok r, w).
Proof. destruct todo_calendar; by eexists. Qed.

Lemma get_todos_loop_reads acc evs w :
  ∃ l, get_todos_loop acc evs w = (Ok l, w).
Proof.
  revert acc. induction evs as [|ev evs IH]; intros acc; [by eexists|].
  cbn [get_todos_loop]. rewrite bind_icalendar_component.
  destruct (String.eqb _ _); apply IH.
Qed.

(** [get_todos] on a calendar: the answer of [todos()], or the fallback
    scan of the events when the collection has no [todos]. *)
Lemma get_todos_of_calendar cal w :
  get_todos (Some cal) w
  = match cal_todos cal with
    | Some l => (Ok l, w)
    | None => get_todos_loop [] (cal_events cal) w
    end.
Proof.
  unfold get_todos, bind, or_get_todo_calendar, ret, try_except_AttributeError, todos.
  simpl. by destruct (cal_todos cal).
Qed.

Lemma get_todos_default w :
  get_todos None w
  = match get_todo_calendar_loop (calendars w) with
    | Some cal => get_todos (Some cal) w
    | None => (Ok [], w)
    end.
Proof.
  unfold get_todos, bind, or_get_todo_calendar, get_todo_calendar,
    get_calendars, bind, ret.
  by destruct (get_todo_calendar_loop (calendars w)).
Qed.

(** The task listing always answers, and only reads. *)
Lemma get_todos_reads todo_calendar w :
  ∃ l, get_todos todo_calendar w = (Ok l, w).
Proof.
  assert (∀ cal, ∃ l, get_todos (Some cal) w = (Ok l, w)) as Hcal.
  { intros cal. rewrite get_todos_of_calendar.
    destruct (cal_todos cal); [by eexists | apply get_todos_loop_reads]. }
  destruct todo_calendar as [cal|]; [apply Hcal|].
  rewrite get_todos_default.
  destruct (get_todo_calendar_loop (calendars w)); [apply Hcal | by eexists].
Qed.

(** Resolving the task calendar first does not change the listing. *)
Lemma get_todos_resolved todo_calendar w r :
  or_get_todo_calendar todo_calendar w = (Ok r, w) →
  get_todos r w = get_todos todo_calendar w.
Proof.
  destruct todo_calendar as [cal|]; simpl.
  - by intros [= <-].
  - unfold get_todo_calendar, get_calendars, bind, ret. intros [= <-].
    rewrite (get_todos_default w).
    destruct (get_todo_calendar_loop (calendars w)) eqn:E; [done|].
    by rewrite get_todos_default, E.
Qed.

Lemma complete_todo_unfold uid todo_calendar w tasks :
  get_todos todo_calendar w = (Ok tasks, w) →
  complete_todo uid todo_calendar w = complete_todo_loop uid tasks w.
Proof.
  intros E. destruct (or_get_todo_calendar_reads todo_calendar w) as [r Er].
  unfold complete_todo. unfold bind at 1. rewrite Er.
  unfold bind at 1. by rewrite (get_todos_resolved _ _ _ Er), E.
Qed.

Lemma delete_todo_unfold uid todo_calendar w tasks :
  get_todos todo_calendar w = (Ok tasks, w) →
  delete_todo uid todo_calendar w = delete_loop uid tasks w.
Proof.
  intros E. destruct (or_get_todo_calendar_reads todo_calendar w) as [r Er].
  unfold delete_todo. unfold bind at 1. rewrite Er.
  unfold bind at 1. by rewrite (get_todos_resolved _ _ _ Er), E.
Qed.

Lemma delete_loop_no_match uid objs w :
  Forall (λ o, identifier w o ≠ uid) objs →
  delete_loop uid objs w = (Ok false, w).
Proof.
  induction 1 as [|o objs Hne _ IH]; [done|].
  cbn [delete_loop]. rewrite bind_icalendar_component.
  unfold identifier in Hne. apply String.eqb_neq in Hne. by rewrite Hne.
Qed.

Lemma delete_loop_match uid before m after w :
  Forall (λ o, identifier w o ≠ uid) before →
  identifier w m = uid →
  delete_loop uid (before ++ m :: after) w = (Ok true, logged w (Delete m)).
Proof.
  intros Hb Hm. induction Hb as [|o before Hne _ IH].
  - cbn [app delete_loop]. rewrite bind_icalendar_component.
    unfold identifier in Hm. apply String.eqb_eq in Hm. by rewrite Hm.
  - cbn [app delete_loop]. rewrite bind_icalendar_component.
    unfold identifier in Hne. apply String.eqb_neq in Hne. by rewrite Hne.
Qed.

Lemma complete_todo_loop_no_match uid todos w :
  Forall (λ o, identifier w o ≠ uid) todos →
  complete_todo_loop uid todos w = (Ok false, w).
Proof.
  induction 1 as [|o todos Hne _ IH]; [done|].
  cbn [complete_todo_loop]. rewrite bind_icalendar_component.
  unfold identifier in Hne. apply String.eqb_neq in Hne. by rewrite Hne.
Qed.

Lemma complete_todo_loop_match uid before m after w :
  Forall (λ o, identifier w o ≠ uid) before →
  identifier w m = uid →
  ∃ w', complete_todo_loop uid (before ++ m :: after) w = (Ok true, w')
        ∧ completed_as m w w'.
Proof.
  intros Hb Hm. induction Hb as [|o before Hne _ IH].
  - cbn [app complete_todo_loop]. rewrite bind_icalendar_component.
    unfold identifier in Hm. apply String.eqb_eq in Hm. rewrite Hm.
    eexists. split; [reflexivity|].
    unfold completed_as. simpl.
    rewrite !lookup_total_insert_eq. simpl.
    repeat split.
    + intros o Hne. by rewrite !lookup_insert_ne by congruence.
    + rewrite lookup_insert_ne by done. apply lookup_insert_eq.
    + apply lookup_insert_eq.
    + intros k Hs Hc. by rewrite !lookup_insert_ne by congruence.
  - cbn [app complete_todo_loop]. rewrite bind_icalendar_component.
    unfold identifier in Hne. apply String.eqb_neq in Hne. by rewrite Hne.
Qed.

(** C8: [complete_todo] and [delete_todo] scan the tasks [get_todos]
    lists (which always answers).  When [todo] is the first task whose
    identifier equals [uid], [complete_todo] sets its status to COMPLETED
    and its completion time to the current time, saves it and returns
    True, and [delete_todo] deletes it and returns True.  When no task
    has the identifier, both return False and the world is as it was. *)
Theorem complete_and_delete_todo_scan (uid : string)
    (todo_calendar : option Calendar) (w : World) :
  (∃ tasks, get_todos todo_calendar w = (Ok tasks, w))
  ∧ ∀ tasks r,
      get_todos todo_calendar w = (Ok tasks, w) →
      first_such (λ o, identifier w o = uid) tasks r →
      match r with
      | Some todo =>
          (∃ w', complete_todo uid todo_calendar w = (Ok true, w')
                 ∧ completed_as todo w w')
          ∧ delete_todo uid todo_calendar w = (Ok true, logged w (Delete todo))
      | None =>
          complete_todo uid todo_calendar w = (Ok false, w)
          ∧ delete_todo uid todo_calendar w = (Ok false, w)
      end.
Proof.
  split; [apply get_todos_reads|].
  intros tasks r E Hr.
  rewrite (complete_todo_unfold _ _ _ _ E), (delete_todo_unfold _ _ _ _ E).
  destruct r as [todo|]; simpl in Hr.
  - destruct Hr as (before & after & -> & Hm & Hb). split.
    + by apply complete_todo_loop_match.
    + by apply delete_loop_match.
  - split; [by apply complete_todo_loop_no_match | by apply delete_loop_no_match].
Qed.

End Todos.

Lemma complete_and_delete_todo_scan_witness :
  (∃ w', complete_todo (H := ascii_library) "todo1" None tasks_world = (Ok true, w')
         ∧ completed_as 7%nat tasks_world w')
  ∧ delete_todo (H := ascii_library) "todo1" None tasks_world
    = (Ok true, logged tasks_world (Delete 7%nat)).
Proof.
  apply (proj2 (complete_and_delete_todo_scan (H := ascii_library)
                  "todo1" None tasks_world) [7%nat] (Some 7%nat)).
  - reflexivity.
  - exists [], []. split; [reflexivity|]. split; [reflexivity | constructor].
Defined.

(** ** events --today *)

Lemma of_micro_midnight k :
  of_micro (k * us_per_day) = mkDatetime k 0 0 0 0.
Proof.
  unfold of_micro. cbv zeta.
  rewrite Z.div_mul, Z.mod_mul by (unfold us_per_day; lia). reflexivity.
Qed.

Lemma timedelta_fits days hours minutes :
  fits_timedelta (micros days hours minutes) →
  timedelta days hours minutes = Ok (micros days hours minutes).
Proof.
  unfold fits_timedelta, timedelta. intros [Hlo Hhi]. cbv zeta.
  apply Z.leb_le in Hlo, Hhi. by rewrite Hlo, Hhi.
Qed.

Lemma timedelta_overflow days hours minutes :
  ¬ fits_timedelta (micros days hours minutes) →
  timedelta days hours minutes = Raise OverflowError.
Proof.
  unfold fits_timedelta, timedelta. intros Hno. cbv zeta.
  destruct (Z.leb_spec (-999999999) (micros days hours minutes / us_per_day));
    [|done].
  destruct (Z.leb_spec (micros days hours minutes / us_per_day) 999999999);
    [|done].
  exfalso. apply Hno. by split.
Qed.

Lemma dt_add_representable d delta :
  representable (dt_shift d delta) → dt_add d delta = Ok (dt_shift d delta).
Proof.
  unfold representable, dt_add. intros [Hlo Hhi]. cbv zeta.
  assert (0 < ordinal (dt_shift d delta)) as Hpos by lia.
  apply Z.ltb_lt in Hpos. apply Z.leb_le in Hhi. by rewrite Hpos, Hhi.
Qed.

Lemma dt_add_overflow d delta :
  ¬ representable (dt_shift d delta) → dt_add d delta = Raise OverflowError.
Proof.
  unfold representable, dt_add. intros Hno. cbv zeta.
  destruct (Z.ltb_spec 0 (ordinal (dt_shift d delta))); [|done].
  destruct (Z.leb_spec (ordinal (dt_shift d delta)) MAXORDINAL); [|done].
  exfalso. apply Hno. lia.
Qed.

Lemma timedelta_one_day : timedelta 1 0 0 = Ok (micros 1 0 0).
Proof. reflexivity. Qed.

Lemma timedelta_one_hour : timedelta 0 1 0 = Ok (micros 0 1 0).
Proof. reflexivity. Qed.

Lemma timedelta_seven_days : timedelta 7 0 0 = Ok (micros 7 0 0).
Proof. reflexivity. Qed.

Lemma midnight_plus_one_day d :
  dt_shift (dt_replace d 0 0 0 0) (micros 1 0 0) = mkDatetime (ordinal d + 1) 0 0 0 0.
Proof.
  unfold dt_shift. rewrite <- of_micro_midnight. f_equal.
  unfold dt_replace, to_micro, micros, us_per_day. cbn [ordinal hour minute second microsecond].
  lia.
Qed.

Section EventsToday.
Context `{Library}.

(** The run of the branch [events --today] without [--calendar]. *)
Lemma main_events_today a w :
  today a = true →
  calendar_name a = None →
  let start := dt_replace (clock w (ticks w)) 0 0 0 0 in
  let end_ := dt_shift start (micros 1 0 0) in
  (representable end_ →
     main_events a w
     = match calendars w with
       | [] => (Ok (Exit 1), ticked w)
       | cal :: _ =>
           (Ok (PrintEvents (date_search_answer cal (heap w) (Some start) (Some end_))),
            logged (ticked w) (DateSearch cal (Some start) (Some end_)))
       end)
  ∧ (¬ representable end_ → main_events a w = (Raise OverflowError, ticked w)).
Proof.
  intros Htoday Hname start end_. unfold main_events. rewrite Htoday, Hname.
  rewrite timedelta_one_day, bind_assoc, bind_now, bind_assoc, bind_lift_Ok,
    bind_assoc.
  fold start. split; intros Hend.
  - rewrite (dt_add_representable _ _ Hend), bind_lift_Ok, bind_ret. fold end_.
    unfold bind, now, ret, get_calendar, get_calendars, bind, ret, ticked, logged.
    simpl. by destruct (calendars w).
  - by rewrite (dt_add_overflow _ _ Hend), bind_lift_Raise.
Qed.

(** C9: on the path [events --today] without [--calendar], the window is
    [start, end) with [start] the current time with hour, minute, second
    and microsecond set to zero (midnight of the current day) and [end]
    that value plus one day (midnight of the next day).  When the next day
    is a date of the years 1 to 9999, the one range query of the run goes
    to the first calendar with exactly this window, and its answer is what
    is printed; without any calendar the run exits with code 1 and no
    query is made.  On the last day, 9999-12-31, the addition raises
    OverflowError: no query is made and [main] exits with code 1.  [main]
    takes this path with the world after the clock reading of the argument
    parser. *)
Theorem events_today_window (a : EventsArgs) (w : World) :
  today a = true →
  calendar_name a = None →
  let start := dt_replace (clock w (ticks w)) 0 0 0 0 in
  let end_ := dt_shift start (micros 1 0 0) in
  start = mkDatetime (ordinal (clock w (ticks w))) 0 0 0 0
  ∧ end_ = mkDatetime (ordinal (clock w (ticks w)) + 1) 0 0 0 0
  ∧ (representable end_ →
       main_events a w
       = match calendars w with
         | [] => (Ok (Exit 1), ticked w)
         | cal :: _ =>
             (Ok (PrintEvents (date_search_answer cal (heap w) (Some start) (Some end_))),
              logged (ticked w) (DateSearch cal (Some start) (Some end_)))
         end)
  ∧ (¬ representable end_ → main_events a w = (Raise OverflowError, ticked w))
  ∧ ∀ args, arg_events args = a → authenticated args →
      let start := dt_replace (clock w (S (ticks w))) 0 0 0 0 in
      let end_ := dt_shift start (micros 1 0 0) in
      (representable end_ →
         main args w
         = match calendars w with
           | [] => (Exit 1, ticked (ticked w))
           | cal :: _ =>
               (PrintEvents (date_search_answer cal (heap w) (Some start) (Some end_)),
                logged (ticked (ticked w)) (DateSearch cal (Some start) (Some end_)))
           end)
      ∧ (¬ representable end_ → main args w = (Exit 1, ticked (ticked w))).
Proof.
  intros Htoday Hname start end_.
  split; [done|]. split; [apply midnight_plus_one_day|].
  split; [apply (main_events_today a w Htoday Hname)|].
  split; [apply (main_events_today a w Htoday Hname)|].
  intros args <- Hauth start' end'. unfold main.
  assert (∃ c, match truthy_str (arg_token args) with
               | Some _ => Some (init (arg_token args) None None (arg_user_id args))
               | None =>
                   match truthy_str (arg_username args), truthy_str (arg_password args) with
                   | Some _, Some _ =>
                       Some (init None (arg_username args) (arg_password args)
                               (arg_user_id args))
                   | _, _ => None
                   end
               end = Some (Ok c)) as [c ->].
  { destruct Hauth as [Ht | [Hu Hp]].
    - destruct (proj2 (truthy_str_nonempty _) Ht) as [tok Etok]. rewrite Etok.
      unfold init. rewrite Etok. by eexists.
    - destruct (proj2 (truthy_str_nonempty _) Hu) as [u Eu].
      destruct (proj2 (truthy_str_nonempty _) Hp) as [p Ep].
      destruct (truthy_str (arg_token args)) as [tok|] eqn:Etok.
      + unfold init. rewrite Etok. by eexists.
      + rewrite Eu, Ep. unfold init. simpl. rewrite Eu, Ep. by eexists. }
  destruct (main_events_today (arg_events args) (snd (now w)) Htoday Hname)
    as [Hrun Hover].
  split; intros Hend.
  - rewrite (Hrun Hend). unfold ticked, logged. simpl. by destruct (calendars w).
  - by rewrite (Hover Hend).
Qed.

End EventsToday.

Lemma events_today_window_witness :
  main (H := ascii_library)
    (mkArgs (Some "y0_token") None None None (mkEventsArgs true None None None))
    (at_time evening two_events_world)
  = (PrintEvents [1%nat; 2%nat],
     logged (ticked (ticked (at_time evening two_events_world)))
       (DateSearch two_events (Some (mkDatetime 739923 0 0 0 0))
                              (Some (mkDatetime 739924 0 0 0 0)))).
Proof.
  pose proof (events_today_window (H := ascii_library)
                (mkEventsArgs true None None None)
                (at_time evening two_events_world) eq_refl eq_refl) as Hw.
  cbv zeta in Hw. destruct Hw as (_ & _ & _ & _ & Hmain).
  assert (authenticated (mkArgs (Some "y0_token") None None None
                           (mkEventsArgs true None None None))) as Hauth.
  { left. exists "y0_token". split; [reflexivity | discriminate]. }
  destruct (Hmain (mkArgs (Some "y0_token") None None None
                     (mkEventsArgs true None None None)) eq_refl Hauth)
    as [Hrun _].
  rewrite Hrun.
  - vm_compute. reflexivity.
  - vm_compute. split; discriminate.
Defined.

(** ** create_event *)

Section CreateEvent.
Context `{Library}.

Lemma save_event_created cal ical w :
  ∃ obj, save_event (Some cal) ical w
         = (Ok obj, mkWorld (calendars w) (<[obj := ical]> (heap w)) (clock w)
                            (ticks w) (trace w ++ [SaveEvent cal ical]))
         ∧ heap w !! obj = None.
Proof.
  exists (fresh (dom (heap w))). split; [reflexivity|].
  apply not_elem_of_dom, is_fresh.
Qed.

Lemma add_lookup k v c k' :
  props (add k v c) !! k' = if decide (k = k') then Some v else props c !! k'.
Proof. apply lookup_insert. Qed.

Lemma add_if_str_lookup k s c k' :
  props (add_if_str k s c) !! k'
  = if decide (k = k')
    then (if decide (s = "") then props c !! k' else Some (VStr s))
    else props c !! k'.
Proof.
  unfold add_if_str. destruct s as [|a s]; simpl.
  - by repeat case_decide.
  - rewrite lookup_insert. by repeat case_decide.
Qed.

Lemma add_if_str_shape k s c :
  comp_name (add_if_str k s c) = comp_name c
  ∧ subcomponents (add_if_str k s c) = subcomponents c.
Proof. unfold add_if_str. by destruct (Str.truthy s). Qed.

Lemma not_end_in_range start end_ :
  ¬ end_in_range start end_ →
  end_ = None ∧ ¬ representable (dt_shift start (micros 0 1 0)).
Proof.
  unfold end_in_range. intros Hno. destruct end_ as [e|].
  - exfalso. apply Hno. discriminate.
  - split; [done|]. intros Hr. by apply Hno.
Qed.

Lemma truthy_int_Some o m : truthy_int o = Some m ↔ o = Some m ∧ m ≠ 0.
Proof.
  unfold truthy_int. destruct o as [n|]; [|split; [done | by intros [? _]]].
  destruct (Z.eqb_spec n 0) as [->|Hn]; split.
  - done.
  - intros [[= <-] Hm]. done.
  - by intros [= <-].
  - by intros [[= <-] _].
Qed.

Lemma not_reminder_in_range reminder :
  ¬ reminder_in_range reminder →
  ∃ m, truthy_int reminder = Some m ∧ ¬ fits_timedelta (micros 0 0 (- m)).
Proof.
  unfold reminder_in_range. intros Hno.
  destruct (truthy_int reminder) as [m|] eqn:E.
  - exists m. split; [done|]. intros Hfits. apply Hno. intros m' Hm' Hne.
    apply truthy_int_Some in E as [E _]. by simplify_eq.
  - exfalso. apply Hno. intros m Hm Hne.
    assert (truthy_int reminder = Some m) as E' by (by apply truthy_int_Some).
    congruence.
Qed.

(** [create_event] reads the clock once or twice, computes the end and
    the trigger, settles the rule and hands the object to [save_event]. *)
Lemma create_event_run title description location start end_ reminder rrule
    calendar c w :
  or_get_calendar calendar w = (Ok c, w) →
  let n := if start is Some _ then 1%nat else 2%nat in
  let start' := default (clock w (ticks w)) start in
  let end' := default (dt_shift start' (micros 0 1 0)) end_ in
  let stamp := clock w (pred n + ticks w)%nat in
  let ical rule :=
    ical_of (event_of title description location start' end' stamp reminder rule) in
  let run :=
    create_event title description location start end_ reminder rrule calendar w in
  (end_in_range start' end_ → reminder_in_range reminder →
     run = match truthy_str rrule with
           | None => save_event c (ical None) (after_clock n w)
           | Some r =>
               match vRecur_from_ical r with
               | Ok p => save_event c (ical (Some p)) (after_clock n w)
               | Raise ex => (Raise ex, after_clock n w)
               end
           end)
  ∧ (¬ end_in_range start' end_ →
       run = (Raise OverflowError, after_clock (pred n) w))
  ∧ (end_in_range start' end_ → ¬ reminder_in_range reminder →
       run = (Raise OverflowError, after_clock n w)).
Proof.
  intros Hcal n start' end' stamp ical run.
  assert (∃ s1 k, s1 = start' ∧ k = pred n
                  ∧ ∀ A (rest : datetime → M A),
                      (do s <- match start with Some s => ret s | None => now end;
                       rest s) w = rest s1 (after_clock k w))
    as (s1 & k & Es & Ek & Hstart).
  { destruct start as [s0|]; eexists _, _; (split; [reflexivity|]);
      (split; [reflexivity|]); intros A rest; [|reflexivity]. by destruct w. }
  subst run ical. unfold event_of.
  split; [|split]; unfold create_event; unfold bind at 1;
    rewrite Hcal; cbv zeta;
    rewrite Hstart; clear Hstart; rewrite <- Es.
  - intros Hend Hrem.
    assert (∀ m, truthy_int reminder = Some m →
                 timedelta 0 0 (- m) = Ok (micros 0 0 (- m))) as Hfit.
    { intros m [Em Hm]%truthy_int_Some. apply timedelta_fits. by apply Hrem. }
    (destruct end_ as [e0|];
       [rewrite bind_ret
       |rewrite bind_assoc, timedelta_one_hour, bind_lift_Ok,
          (dt_add_representable _ _ (Hend eq_refl)), bind_lift_Ok]);
      rewrite bind_now;
      (destruct (truthy_int reminder) as [m|];
       [rewrite bind_assoc, (Hfit m eq_refl), bind_lift_Ok|]);
      rewrite bind_ret;
      (destruct (truthy_str rrule) as [r|]; [destruct (vRecur_from_ical r)|]);
      subst s1 k; destruct start; reflexivity.
  - intros [-> Hend]%not_end_in_range. cbv beta iota.
    rewrite bind_assoc, timedelta_one_hour, bind_lift_Ok,
      (dt_add_overflow _ _ Hend), bind_lift_Raise. by subst k.
  - intros Hend (m & Em & Hm)%not_reminder_in_range.
    (destruct end_ as [e0|];
       [rewrite bind_ret
       |rewrite bind_assoc, timedelta_one_hour, bind_lift_Ok,
          (dt_add_representable _ _ (Hend eq_refl)), bind_lift_Ok]);
      rewrite bind_now, Em, bind_assoc, (timedelta_overflow _ _ _ Hm),
        bind_lift_Raise; subst k; destruct start; reflexivity.
Qed.

Lemma add_component_props sub c : props (add_component sub c) = props c.
Proof. reflexivity. Qed.

Lemma event_of_props title description location start end_ stamp reminder rule k :
  props (event_of title description location start end_ stamp reminder rule) !! k
  = if decide (k = "rrule") then VRecur <$> rule
    else if decide (k = "dtstamp") then Some (VDatetime stamp)
    else if decide (k = "dtend") then Some (VDatetime end_)
    else if decide (k = "dtstart") then Some (VDatetime start)
    else if decide (k = "location")
         then (if decide (location = "") then None else Some (VStr location))
    else if decide (k = "description")
         then (if decide (description = "") then None else Some (VStr description))
    else if decide (k = "summary") then Some (VStr title)
    else None.
Proof.
  unfold event_of.
  destruct rule as [p|], (truthy_int reminder) as [m|];
    rewrite ?add_lookup, ?add_component_props, ?add_lookup, ?add_if_str_lookup,
      ?add_lookup;
    unfold empty_component; cbn [props]; rewrite ?lookup_empty;
    repeat case_decide; subst; try done.
Qed.

Lemma event_of_shape title description location start end_ stamp reminder rule :
  comp_name (event_of title description location start end_ stamp reminder rule) = "VEVENT"
  ∧ subcomponents (event_of title description location start end_ stamp reminder rule)
    = match reminder with
      | Some m => if decide (m = 0) then [] else [display_alarm title m]
      | None => []
      end.
Proof.
  unfold event_of, truthy_int.
  destruct rule as [p|], reminder as [m|]; try destruct (Z.eqb_spec m 0);
    repeat case_decide; try done;
    cbn [add add_component comp_name subcomponents];
    rewrite ?(proj1 (add_if_str_shape _ _ _)), ?(proj2 (add_if_str_shape _ _ _));
    (split; [done|]); reflexivity.
Qed.

Lemma event_of_built title description location start end_ stamp reminder rule :
  built_event title description location start end_ stamp reminder rule
    (ical_of (event_of title description location start end_ stamp reminder rule)).
Proof.
  unfold built_event. split; [done|]. split; [reflexivity|].
  exists (event_of title description location start end_ stamp reminder rule).
  destruct (event_of_shape title description location start end_ stamp reminder rule)
    as [Hname Hsub].
  split; [done|]. split; [done|].
  rewrite !event_of_props.
  repeat split; try done.
  intros k Hk. rewrite event_of_props.
  repeat case_decide; subst; try done; exfalso; apply Hk;
    rewrite !elem_of_cons; auto 10.
Qed.

Lemma created_as_saved cal ical n w :
  ∃ obj w', save_event (Some cal) ical (after_clock n w) = (Ok obj, w')
            ∧ created_as cal ical n obj w w'.
Proof.
  destruct (save_event_created cal ical (after_clock n w)) as (obj & E & Hfresh).
  exists obj. eexists. split; [exact E|]. by repeat split.
Qed.

(** C7, as amended: when a calendar is passed or resolves, [create_event]
    builds one calendar object, a VCALENDAR holding one VEVENT, and hands
    it to [save_event] once.  The event carries the title, the description
    and the location when they are not empty, the start (the current time
    when omitted), the end (start + 1 hour when omitted) and a time stamp.
    A reminder other than zero gives exactly one DISPLAY alarm whose
    trigger is that many minutes before the start; a reminder of zero or
    no reminder gives no alarm.  A non-empty rule is parsed by the
    library's rule parser and the parsed rule is attached; when the parser
    rejects it, [create_event] raises the parser's exception and saves
    nothing; an empty rule is treated as omitted.  All this holds when the
    end and the trigger exist.  When the end is omitted and start + 1 hour
    is past the year 9999, [create_event] raises OverflowError before the
    time stamp is read; when the reminder is no duration a timedelta can
    hold, it raises OverflowError after the time stamp is read; nothing is
    saved in either case. *)
Theorem create_event_builds (title description location : string)
    (start end_ : option datetime) (reminder_minutes : option Z)
    (rrule : option string) (calendar : option Calendar) (cal : Calendar)
    (w : World) :
  works_on calendar w cal →
  let n := if start is Some _ then 1%nat else 2%nat in
  let start' := default (clock w (ticks w)) start in
  let end' := default (dt_shift start' (micros 0 1 0)) end_ in
  let stamp := clock w (pred n + ticks w)%nat in
  let run :=
    create_event title description location start end_ reminder_minutes rrule
      calendar w in
  (end_in_range start' end_ → reminder_in_range reminder_minutes →
     (¬ nonempty rrule →
        ∃ obj ical w',
          run = (Ok obj, w') ∧ created_as cal ical n obj w w'
          ∧ built_event title description location start' end' stamp
              reminder_minutes None ical)
     ∧ (∀ r p, rrule = Some r → r ≠ "" → vRecur_from_ical r = Ok p →
          ∃ obj ical w',
            run = (Ok obj, w') ∧ created_as cal ical n obj w w'
            ∧ built_event title description location start' end' stamp
                reminder_minutes (Some p) ical)
     ∧ (∀ r ex, rrule = Some r → r ≠ "" → vRecur_from_ical r = Raise ex →
          run = (Raise ex, after_clock n w)))
  ∧ (¬ end_in_range start' end_ →
       run = (Raise OverflowError, after_clock (pred n) w))
  ∧ (end_in_range start' end_ → ¬ reminder_in_range reminder_minutes →
       run = (Raise OverflowError, after_clock n w)).
Proof.
  intros Hcal n start' end' stamp run.
  destruct (create_event_run title description location start end_
              reminder_minutes rrule calendar (Some cal) w
              (or_get_calendar_works_on _ _ _ Hcal))
    as (Hrun & Hno_end & Hno_trigger).
  fold n start' end' stamp run in Hrun, Hno_end, Hno_trigger.
  split; [|split; [exact Hno_end | exact Hno_trigger]].
  intros Hend Hrem. specialize (Hrun Hend Hrem).
  split; [|split].
  - intros Hr. apply truthy_str_None in Hr. rewrite Hr in Hrun.
    destruct (created_as_saved cal
                (ical_of (event_of title description location start' end' stamp
                            reminder_minutes None)) n w) as (obj & w' & E & Hc).
    exists obj. eexists. exists w'. rewrite Hrun.
    split; [exact E|]. split; [exact Hc | apply event_of_built].
  - intros r p -> Hr Hp.
    assert (truthy_str (Some r) = Some r) as Er by (by apply truthy_str_Some).
    rewrite Er, Hp in Hrun.
    destruct (created_as_saved cal
                (ical_of (event_of title description location start' end' stamp
                            reminder_minutes (Some p))) n w) as (obj & w' & E & Hc).
    exists obj. eexists. exists w'. rewrite Hrun.
    split; [exact E|]. split; [exact Hc | apply event_of_built].
  - intros r ex -> Hr Hex.
    assert (truthy_str (Some r) = Some r) as Er by (by apply truthy_str_Some).
    by rewrite Er, Hex in Hrun.
Qed.

End CreateEvent.

Lemma create_event_builds_witness :
  ∃ obj ical w',
    create_event (H := rule_library) "Demo" "D" "L" (Some evening) None (Some 15)
      (Some "FREQ=WEEKLY;BYDAY=WE") (Some two_events) two_events_world
    = (Ok obj, w')
    ∧ created_as two_events ical 1 obj two_events_world w'
    ∧ built_event "Demo" "D" "L" evening (mkDatetime 739923 21 29 17 123456) epoch
        (Some 15) (Some [("FREQ", ["WEEKLY"]); ("BYDAY", ["WE"])]) ical.
Proof.
  pose proof (create_event_builds (H := rule_library)
           "Demo" "D" "L" (Some evening) None (Some 15)
           (Some "FREQ=WEEKLY;BYDAY=WE") (Some two_events) two_events
           two_events_world (or_introl eq_refl)) as Hw.
  cbv zeta in Hw. destruct Hw as [Hw _].
  assert (end_in_range evening None) as Hend.
  { intros _. vm_compute. split; discriminate. }
  assert (reminder_in_range (Some 15)) as Hrem.
  { intros m [= <-] _. vm_compute. split; discriminate. }
  destruct (Hw Hend Hrem) as (_ & Hrule & _).
  apply (Hrule "FREQ=WEEKLY;BYDAY=WE" [("FREQ", ["WEEKLY"]); ("BYDAY", ["WE"])]).
  - reflexivity.
  - discriminate.
  - reflexivity.
Defined.

(** C7, as stated, fails.  A reminder of zero minutes is a supplied
    reminder and an empty rule is a supplied rule, and the event that is
    saved has no alarm and no rule.  A rule is not attached as the text
    that was passed but as what the parser makes of it: with a parser
    that skips an empty part, as the one of icalendar does, a rule with a
    semicolon at its end and the rule without it give the same object.
    An omitted end is not always start + 1 hour, and a supplied reminder
    does not always give an alarm: on the evening of 9999-12-31, and for
    a reminder of ten million million minutes, [create_event] raises
    OverflowError and saves nothing. *)
Lemma create_event_not_as_stated :
  (∃ obj ical w' event,
     create_event (H := ascii_library) "Demo" "" "" (Some epoch) None (Some 0)
       (Some "") (Some two_events) two_events_world
     = (Ok obj, w')
     ∧ trace w' = [SaveEvent two_events ical]
     ∧ subcomponents ical = [event]
     ∧ subcomponents event = []
     ∧ props event !! "rrule" = None)
  ∧ (∃ obj ical w' event,
       create_event (H := rule_library) "Demo" "" "" (Some epoch) None None
         (Some "FREQ=WEEKLY;BYDAY=WE;") (Some two_events) two_events_world
       = (Ok obj, w')
       ∧ create_event (H := rule_library) "Demo" "" "" (Some epoch) None None
           (Some "FREQ=WEEKLY;BYDAY=WE") (Some two_events) two_events_world
         = (Ok obj, w')
       ∧ trace w' = [SaveEvent two_events ical]
       ∧ subcomponents ical = [event]
       ∧ props event !! "rrule"
         = Some (VRecur [("FREQ", ["WEEKLY"]); ("BYDAY", ["WE"])]))
  ∧ create_event (H := ascii_library) "Demo" "" "" (Some last_evening) None None
      None (Some two_events) two_events_world
    = (Raise OverflowError, two_events_world)
  ∧ create_event (H := ascii_library) "Demo" "" "" (Some epoch) None
      (Some 10000000000000) None (Some two_events) two_events_world
    = (Raise OverflowError, ticked two_events_world).
Proof.
  split; [|split; [|split]].
  - eexists. eexists. eexists. eexists.
    split; [vm_compute; reflexivity|]. split; [reflexivity|].
    split; [reflexivity|]. split; reflexivity.
  - eexists. eexists. eexists. eexists.
    split; [vm_compute; reflexivity|]. split; [vm_compute; reflexivity|].
    split; [reflexivity|]. split; reflexivity.
  - vm_compute. reflexivity.
  - vm_compute. reflexivity.
Qed.

(** ** Further properties of the facade *)

Section Further.
Context `{Library}.

(** X3: [delete_event] scans the events of the calendar it works on: it
    deletes the first event whose identifier equals [uid] and returns
    True; when no event has the identifier it returns False and the world
    is as it was. *)
Theorem delete_event_scan (uid : string) (calendar : option Calendar)
    (cal : Calendar) (w : World) (r : option nat) :
  works_on calendar w cal →
  first_such (λ o, identifier w o = uid) (cal_events cal) r →
  delete_event uid calendar w
  = match r with
    | Some event => (Ok true, logged w (Delete event))
    | None => (Ok false, w)
    end.
Proof.
  intros Hcal Hr.
  rewrite (delete_event_resolved _ _ _ _ (or_get_calendar_works_on _ _ _ Hcal)).
  destruct r as [event|]; simpl in Hr.
  - destruct Hr as (before & after & -> & Hm & Hb). by apply delete_loop_match.
  - by apply delete_loop_no_match.
Qed.

Lemma get_todos_loop_selects acc evs w :
  ∃ r, selects (λ o, comp_name (heap w !!! o) = "VTODO") evs r
       ∧ get_todos_loop acc evs w = (Ok (acc ++ r)%list, w).
Proof.
  revert acc. induction evs as [|ev evs IH]; intros acc.
  - exists []. split; [constructor|]. simpl. by rewrite app_nil_r.
  - cbn [get_todos_loop]. rewrite bind_icalendar_component.
    destruct (String.eqb (comp_name (heap w !!! ev)) "VTODO") eqn:E.
    + destruct (IH (acc ++ [ev])%list) as (r & Hr & ->).
      exists (ev :: r). split.
      * constructor; [|done]. by apply String.eqb_eq.
      * by rewrite <- app_assoc.
    + destruct (IH acc) as (r & Hr & ->).
      exists r. split; [|done].
      apply selects_skip; [|done]. by apply String.eqb_neq.
Qed.

(** X4: [get_todos] on a task calendar returns what [todos()] lists; when the
    collection has no [todos], it returns exactly the objects of
    [events()] whose component is of kind VTODO, in order.  Without a
    calendar whose address has the marker it returns the empty list. *)
Theorem get_todos_listing (cal : Calendar) (w : World) :
  (∀ l, cal_todos cal = Some l → get_todos (Some cal) w = (Ok l, w))
  ∧ (cal_todos cal = None →
     ∃ r, get_todos (Some cal) w = (Ok r, w)
          ∧ selects (λ o, comp_name (heap w !!! o) = "VTODO") (cal_events cal) r)
  ∧ (Forall (λ c, ¬ has_marker c) (calendars w) → get_todos None w = (Ok [], w)).
Proof.
  split; [|split].
  - intros l E. by rewrite get_todos_of_calendar, E.
  - intros E. rewrite get_todos_of_calendar, E.
    destruct (get_todos_loop_selects [] (cal_events cal) w) as (r & Hr & ->).
    by exists r.
  - intros Hno. rewrite get_todos_default.
    pose proof (get_todo_calendar_loop_first (calendars w)) as Hf.
    destruct (get_todo_calendar_loop (calendars w)) as [c|]; [|done].
    destruct Hf as (before & after & E & Hc & _).
    rewrite E in Hno. apply Forall_app in Hno as [_ Hno].
    apply Forall_cons in Hno as [Hno _]. done.
Qed.

(** X5: [get_events] makes one range query to the calendar it works on, with
    the start and the end it was given, and returns the answer. *)
Theorem get_events_delegates (calendar : option Calendar) (cal : Calendar)
    (start end_ : option datetime) (w : World) :
  works_on calendar w cal →
  get_events calendar start end_ w
  = (Ok (date_search_answer cal (heap w) start end_),
     logged w (DateSearch cal start end_)).
Proof.
  intros Hcal. unfold get_events. unfold bind at 1.
  by rewrite (or_get_calendar_works_on _ _ _ Hcal).
Qed.

End Further.

Lemma delete_event_scan_witness :
  delete_event (H := ascii_library) "2" None two_events_world
  = (Ok true, logged two_events_world (Delete 2%nat)).
Proof.
  apply (delete_event_scan (H := ascii_library) "2" None two_events
           two_events_world (Some 2%nat)).
  - right. split; reflexivity.
  - exists [1%nat], []. split; [reflexivity|].
    split; [reflexivity | repeat constructor; vm_compute; discriminate].
Defined.

Lemma get_todos_listing_witness :
  get_todos (Some tasks) tasks_world = (Ok [7%nat], tasks_world).
Proof.
  apply (proj1 (get_todos_listing tasks tasks_world) [7%nat]).
  reflexivity.
Defined.

Lemma get_events_delegates_witness :
  get_events (H := ascii_library) None (Some epoch) None two_events_world
  = (Ok [1%nat; 2%nat],
     logged two_events_world (DateSearch two_events (Some epoch) None)).
Proof.
  apply (get_events_delegates (H := ascii_library) None two_events (Some epoch) None
           two_events_world).
  right. split; reflexivity.
Defined.

(** ** create_todo *)

Lemma first_such_unique {A} (P : A → Prop) (l : list A) (r1 r2 : option A) :
  first_such P l r1 → first_such P l r2 → r1 = r2.
Proof.
  assert (∀ x before after, P x → ¬ Forall (λ y, ¬ P y) (before ++ x :: after)%list)
    as Hin.
  { intros x before after Hx Hall. apply Forall_app in Hall as [_ Hall].
    apply Forall_cons in Hall as [Hnx _]. done. }
  destruct r1 as [x1|], r2 as [x2|]; simpl; try done.
  - intros (b1 & a1 & -> & Hx1 & Hb1) (b2 & a2 & E & Hx2 & Hb2).
    revert b2 E Hb2. induction Hb1 as [|y b1 Hy _ IH]; intros b2 E Hb2.
    + destruct Hb2 as [|z b2 Hz _]; simplify_eq/=; done.
    + destruct Hb2 as [|z b2 Hz Hb2]; simplify_eq/=; [done|].
      by apply (IH b2).
  - intros (b1 & a1 & -> & Hx1 & _) Hall. by destruct (Hin x1 b1 a1).
  - intros Hall (b2 & a2 & -> & Hx2 & _). by destruct (Hin x2 b2 a2).
Qed.

Lemma or_get_todo_calendar_tasks_of todo_calendar w r :
  tasks_of todo_calendar w r →
  or_get_todo_calendar todo_calendar w = (Ok r, w).
Proof.
  intros [[-> [cal ->]] | [-> Hr]]; [done|].
  unfold or_get_todo_calendar, get_todo_calendar, get_calendars, bind, ret.
  by rewrite (first_such_unique _ _ _ _ (get_todo_calendar_loop_first (calendars w)) Hr).
Qed.

Section CreateTodo.
Context `{Library}.

Lemma add_int_int32 k n c : int32 n → add_int k n c = Ok (add k (VInt n) c).
Proof.
  unfold int32, add_int. intros [Hlo Hhi].
  apply Z.leb_le in Hlo, Hhi. by rewrite Hlo, Hhi.
Qed.

Lemma add_int_rejected k n c : ¬ int32 n → add_int k n c = Raise ValueError.
Proof.
  unfold int32, add_int. intros Hno.
  destruct (Z.leb_spec (-2147483648) n); [|done].
  destruct (Z.leb_spec n 2147483647); [|done].
  exfalso. apply Hno. by split.
Qed.

Lemma create_todo_run title description tags priority due todo_calendar w r :
  or_get_todo_calendar todo_calendar w = (Ok r, w) →
  create_todo title description tags priority due todo_calendar w
  = match r with
    | None => (Ok None, w)
    | Some tcal =>
        let todo := add "summary" (VStr title) (empty_component "VTODO") in
        let todo := add_if_str "description" description todo in
        let todo := match tags with
                    | Some (t :: ts) => add "categories" (VCategories (t :: ts)) todo
                    | _ => todo
                    end in
        match add_int "priority" priority todo with
        | Raise e => (Raise e, w)
        | Ok todo =>
            let todo := add "status" (VStr "NEEDS-ACTION") todo in
            let todo := add "created" (VDatetime (clock w (ticks w))) todo in
            let todo := match due with
                        | Some d => add "due" (VDatetime d) todo
                        | None => todo
                        end in
            match save_event (Some tcal) (ical_of todo) (after_clock 1 w) with
            | (Ok obj, w') => (Ok (Some obj), w')
            | (Raise e, w') => (Raise e, w')
            end
        end
    end.
Proof.
  intros E. unfold create_todo. unfold bind at 1. rewrite E.
  destruct r as [tcal|]; [|done]. cbv zeta.
  by destruct (add_int "priority" priority _).
Qed.

Lemma create_todo_resolved (title description : string)
    (tags : option (list string)) (priority : Z) (due : option datetime)
    (todo_calendar : option Calendar) (w : World) (r : option Calendar) :
  or_get_todo_calendar todo_calendar w = (Ok r, w) →
  match r with
  | Some tcal =>
      (int32 priority →
         ∃ obj ical w',
           create_todo title description tags priority due todo_calendar w
           = (Ok (Some obj), w')
           ∧ created_as tcal ical 1 obj w w'
           ∧ built_todo title description tags priority (clock w (ticks w)) due ical)
      ∧ (¬ int32 priority →
           create_todo title description tags priority due todo_calendar w
           = (Raise ValueError, w))
  | None =>
      create_todo title description tags priority due todo_calendar w = (Ok None, w)
  end.
Proof.
  intros Hr.
  rewrite (create_todo_run _ _ _ _ _ _ _ _ Hr).
  destruct r as [tcal|]; [|done]. cbv zeta.
  split; [|intros Hno; by rewrite (add_int_rejected _ _ _ Hno)].
  intros Hint. rewrite (add_int_int32 _ _ _ Hint).
  match goal with |- context [save_event _ (ical_of ?t)] => set (todo := t) end.
  destruct (created_as_saved tcal (ical_of todo) 1 w) as (obj & w' & E & Hc).
  exists obj, (ical_of todo), w'. rewrite E. split; [done|]. split; [done|].
  unfold built_todo. split; [done|]. split; [reflexivity|].
  exists todo. split; [done|].
  assert (∀ k, props todo !! k
    = if decide (k = "due") then VDatetime <$> due
      else if decide (k = "created") then Some (VDatetime (clock w (ticks w)))
      else if decide (k = "status") then Some (VStr "NEEDS-ACTION")
      else if decide (k = "priority") then Some (VInt priority)
      else if decide (k = "categories")
           then match tags with
                | Some (t :: ts) => Some (VCategories (t :: ts))
                | _ => None
                end
      else if decide (k = "description")
           then (if decide (description = "") then None else Some (VStr description))
      else if decide (k = "summary") then Some (VStr title)
      else None) as Hprops.
  { intros k. unfold todo.
    destruct due as [d|], tags as [[|t ts]|];
      rewrite ?add_lookup, ?add_if_str_lookup, ?add_lookup;
      unfold empty_component; cbn [props]; rewrite ?lookup_empty;
      repeat case_decide; subst; try done. }
  assert (comp_name todo = "VTODO" ∧ subcomponents todo = []) as [Hname Hsub].
  { unfold todo. destruct due as [d|], tags as [[|t ts]|];
      cbn [add comp_name subcomponents];
      rewrite ?(proj1 (add_if_str_shape _ _ _)), ?(proj2 (add_if_str_shape _ _ _));
      done. }
  split; [done|]. split; [done|].
  rewrite !Hprops. repeat split; try done.
  intros k Hk. rewrite Hprops.
  repeat case_decide; subst; try done; exfalso; apply Hk;
    rewrite !elem_of_cons; auto 10.
Qed.

(** X6: when a task calendar is passed or resolves and the priority is an
    integer of the signed 32-bit range, [create_todo] reads the clock once
    and hands one calendar object to [save_event], a VCALENDAR holding one
    VTODO with the title, the description when it is not empty, the tags
    when the list is not empty, the priority, the status NEEDS-ACTION, the
    creation time and the due time when given; the result is the new
    object.  For a priority outside that range, adding it to the VTODO
    raises ValueError: the clock is not read and nothing is saved.
    Without a task calendar the result is None and the world is as it
    was, whatever the priority. *)
Theorem create_todo_builds (title description : string)
    (tags : option (list string)) (priority : Z) (due : option datetime)
    (todo_calendar : option Calendar) (w : World) (r : option Calendar) :
  tasks_of todo_calendar w r →
  match r with
  | Some tcal =>
      (int32 priority →
         ∃ obj ical w',
           create_todo title description tags priority due todo_calendar w
           = (Ok (Some obj), w')
           ∧ created_as tcal ical 1 obj w w'
           ∧ built_todo title description tags priority (clock w (ticks w)) due ical)
      ∧ (¬ int32 priority →
           create_todo title description tags priority due todo_calendar w
           = (Raise ValueError, w))
  | None =>
      create_todo title description tags priority due todo_calendar w = (Ok None, w)
  end.
Proof.
  intros Hr. apply create_todo_resolved.
  by apply or_get_todo_calendar_tasks_of.
Qed.

End CreateTodo.

Lemma create_todo_builds_witness :
  (∃ obj ical w',
     create_todo "Task" "D" (Some ["x"]) 2 (Some epoch) None tasks_world
     = (Ok (Some obj), w')
     ∧ created_as tasks ical 1 obj tasks_world w'
     ∧ built_todo "Task" "D" (Some ["x"]) 2 epoch (Some epoch) ical)
  ∧ create_todo "Task" "D" (Some ["x"]) 2147483648 (Some epoch) None tasks_world
    = (Raise ValueError, tasks_world).
Proof.
  assert (tasks_of None tasks_world (Some tasks)) as Hr.
  { right. split; [reflexivity|].
    exists [two_events], []. split; [reflexivity|]. split.
    - exists "https://x/", "/2". reflexivity.
    - repeat constructor. intros Hm. apply contains_spec in Hm. discriminate. }
  split.
  - apply (create_todo_builds "Task" "D" (Some ["x"]) 2 (Some epoch) None
             tasks_world (Some tasks) Hr).
    vm_compute. split; discriminate.
  - apply (create_todo_builds "Task" "D" (Some ["x"]) 2147483648 (Some epoch) None
             tasks_world (Some tasks) Hr).
    vm_compute. intros [_ Hhi]. by apply Hhi.
Defined.

(** ** What the operations never do *)

Section Never.
Context `{Library}.

Lemma same_identities_refl w : same_identities w w.
Proof. by intros o. Qed.

Lemma updates_only_same_identities m f w w2 :
  updates_only m f w w2 →
  (∀ c, props (f c) !! "uid" = props c !! "uid"
        ∧ comp_name (f c) = comp_name c
        ∧ subcomponents (f c) = subcomponents c) →
  same_identities w w2.
Proof.
  intros (_ & _ & _ & _ & Hm & Ho) Hf o. unfold identifier.
  destruct (decide (o = m)) as [->|Hne].
  - rewrite Hm. destruct (Hf (heap w !!! m)) as (-> & -> & ->). done.
  - by rewrite !lookup_total_alt, (Ho o Hne).
Qed.

Lemma apply_fields_keeps_uid t d l s e c :
  props (apply_fields t d l s e c) !! "uid" = props c !! "uid"
  ∧ comp_name (apply_fields t d l s e c) = comp_name c
  ∧ subcomponents (apply_fields t d l s e c) = subcomponents c.
Proof.
  split; [|apply apply_fields_shape].
  apply apply_fields_frame_truthy.
  apply not_in_supplied_keys; by right.
Qed.

(** X7: whatever its arguments and the world, [update_event] keeps the
    calendar list and the clock, keeps the identifier, the kind and the
    sub-components of every object, and sends at most one request: the
    Save of the object it returns, as it is then. *)
Theorem update_event_preserves (uid : string) (t d l : option string)
    (s e : option datetime) (calendar : option Calendar) (w : World) :
  calendars (snd (update_event uid t d l s e calendar w)) = calendars w
  ∧ clock (snd (update_event uid t d l s e calendar w)) = clock w
  ∧ ticks (snd (update_event uid t d l s e calendar w)) = ticks w
  ∧ same_identities w (snd (update_event uid t d l s e calendar w))
  ∧ (snd (update_event uid t d l s e calendar w) = w
     ∨ ∃ m, fst (update_event uid t d l s e calendar w) = Ok (Some m)
            ∧ trace (snd (update_event uid t d l s e calendar w))
              = (trace w ++ [Save m (heap (snd (update_event uid t d l s e calendar w))
                                       !!! m)])%list).
Proof.
  destruct (or_get_calendar_reads calendar w) as [r Er].
  rewrite (update_event_resolved _ _ _ _ _ _ _ _ _ Er).
  destruct r as [cal|]; simpl.
  2: { repeat split; try done. by left. }
  destruct (first_such_exists (λ o, identifier w o = uid) (cal_events cal))
    as [[m|] Hr]; simpl in Hr.
  - destruct Hr as (before & after & -> & Hm & Hb).
    destruct (update_event_loop_match uid t d l s e before m after w Hb Hm)
      as (w2 & U & ->).
    pose proof (updates_only_same_identities _ _ _ _ U
                  (apply_fields_keeps_uid t d l s e)) as Hid.
    destruct U as (Hc & Hk & Ht & Htr & _ & _). simpl.
    repeat split; try done; try apply Hid.
    right. exists m. by rewrite Htr.
  - rewrite update_event_loop_no_match by done. simpl.
    repeat split; try done. by left.
Qed.

Lemma search_events_reads query calendar w :
  snd (search_events query calendar w) = w.
Proof.
  destruct (or_get_calendar_reads calendar w) as [r Er].
  rewrite (search_events_resolved _ _ _ _ Er).
  destruct r as [cal|]; [|done].
  by destruct (search_events_loop_selects query [] (cal_events cal) w) as (l & _ & ->).
Qed.

(** X8: the lookups only read: [get_calendar], [get_todo_calendar],
    [get_todos] and [search_events] leave the world as it was (objects,
    clock and requests), whatever they are given and whatever they
    return or raise. *)
Theorem lookups_leave_world (name : option string) (query : string)
    (calendar todo_calendar : option Calendar) (w : World) :
  snd (get_calendar name w) = w
  ∧ snd (get_todo_calendar w) = w
  ∧ snd (get_todos todo_calendar w) = w
  ∧ snd (search_events query calendar w) = w.
Proof.
  split; [|split; [|split]].
  - unfold get_calendar, get_calendars, bind, ret.
    destruct (calendars w); [done|]. by destruct (truthy_str name).
  - done.
  - by destruct (get_todos_reads todo_calendar w) as [l ->].
  - apply search_events_reads.
Qed.

Lemma completed_as_same_identities todo w w' :
  completed_as todo w w' → same_identities w w'.
Proof.
  intros (_ & _ & _ & _ & Ho & Hn & Hs & _ & _ & Hk) o. unfold identifier.
  destruct (decide (o = todo)) as [->|Hne].
  - by rewrite Hn, Hs, (Hk "uid").
  - by rewrite !lookup_total_alt, (Ho o Hne).
Qed.

(** X9: whatever their arguments and the world, [complete_todo] keeps the
    calendar list and the identifier, kind and sub-components of every
    object, and either changes nothing or completes one object; and
    [delete_event] and [delete_todo] change no object at all: the world is
    as it was, or has one more request, the Delete of one object. *)
Theorem complete_and_delete_preserve (uid : string)
    (calendar todo_calendar : option Calendar) (w : World) :
  (same_identities w (snd (complete_todo uid todo_calendar w))
   ∧ (snd (complete_todo uid todo_calendar w) = w
      ∨ ∃ todo, fst (complete_todo uid todo_calendar w) = Ok true
                ∧ completed_as todo w (snd (complete_todo uid todo_calendar w))))
  ∧ (snd (delete_event uid calendar w) = w
     ∨ ∃ obj, delete_event uid calendar w = (Ok true, logged w (Delete obj)))
  ∧ (snd (delete_todo uid todo_calendar w) = w
     ∨ ∃ obj, delete_todo uid todo_calendar w = (Ok true, logged w (Delete obj))).
Proof.
  assert (∀ objs, snd (delete_loop uid objs w) = w
                  ∨ ∃ obj, delete_loop uid objs w = (Ok true, logged w (Delete obj)))
    as Hdel.
  { intros objs.
    destruct (first_such_exists (λ o, identifier w o = uid) objs) as [[m|] Hr];
      simpl in Hr.
    - destruct Hr as (before & after & -> & Hm & Hb).
      right. exists m. by apply delete_loop_match.
    - left. by rewrite delete_loop_no_match. }
  destruct (get_todos_reads todo_calendar w) as [tasks_ Et].
  split; [|split].
  - rewrite (complete_todo_unfold _ _ _ _ Et).
    destruct (first_such_exists (λ o, identifier w o = uid) tasks_) as [[m|] Hr];
      simpl in Hr.
    + destruct Hr as (before & after & -> & Hm & Hb).
      destruct (complete_todo_loop_match uid before m after w Hb Hm) as (w' & -> & Hc).
      simpl. split; [by apply (completed_as_same_identities m)|].
      right. by exists m.
    + rewrite complete_todo_loop_no_match by done. simpl.
      split; [apply same_identities_refl | by left].
  - destruct (or_get_calendar_reads calendar w) as [r Er].
    rewrite (delete_event_resolved _ _ _ _ Er).
    destruct r as [cal|]; [apply Hdel | by left].
  - rewrite (delete_todo_unfold _ _ _ _ Et). apply Hdel.
Qed.

End Never.

(** ** The command line *)

Section CommandLineProperties.
Context `{Library} `{Formatting}.

Lemma main_command_authenticated args w :
  cli_authenticated args →
  main_command args w
  = match run_command (clock w (ticks w)) (cli_command args) (ticked w) with
    | (Ok r, w') => (r, w')
    | (Raise e, w') => (Stderr (Uncaught e) 1, w')
    end.
Proof.
  intros Hauth. unfold main_command.
  assert (∃ c, match truthy_str (cli_token args) with
               | Some _ => Some (init (cli_token args) None None (cli_user_id args))
               | None =>
                   match truthy_str (cli_username args), truthy_str (cli_password args) with
                   | Some _, Some _ =>
                       Some (init None (cli_username args) (cli_password args)
                               (cli_user_id args))
                   | _, _ => None
                   end
               end = Some (Ok c)) as [c Ec].
  { destruct Hauth as [Ht | [Hu Hp]].
    - destruct (proj2 (truthy_str_nonempty _) Ht) as [tok Etok]. rewrite Etok.
      unfold init. rewrite Etok. by eexists.
    - destruct (proj2 (truthy_str_nonempty _) Hu) as [u Eu].
      destruct (proj2 (truthy_str_nonempty _) Hp) as [p Ep].
      destruct (truthy_str (cli_token args)) as [tok|] eqn:Etok.
      + unfold init. rewrite Etok. by eexists.
      + rewrite Eu, Ep. unfold init. simpl. rewrite Eu, Ep. by eexists. }
  cbv zeta. rewrite Ec. reflexivity.
Qed.

Lemma main_command_unauthenticated args w :
  ¬ cli_authenticated args →
  main_command args w = (Stderr AuthenticationRequired 1, ticked w).
Proof.
  intros Hno. unfold main_command. cbv zeta.
  assert (truthy_str (cli_token args) = None) as ->.
  { apply truthy_str_None. intros Ht. apply Hno. by left. }
  destruct (truthy_str (cli_username args)) as [u|] eqn:Eu; [|done].
  destruct (truthy_str (cli_password args)) as [p|] eqn:Ep; [|done].
  exfalso. apply Hno. right. split; apply truthy_str_nonempty; eauto.
Qed.

Lemma main_events_exit a w code w' :
  main_events a w = (Ok (Exit code), w') → code = 1.
Proof.
  unfold main_events, bind, ret, get_calendar, get_calendars, get_events,
    or_get_calendar, date_search, log, now, parse_date, raise, bind, ret.
  intros E. repeat (case_match; simplify_eq/=); done.
Qed.

Lemma run_command_failure parser_now cmd w f code w' :
  run_command parser_now cmd w = (Ok (Stderr f code), w') →
  code = 1 ∧ f ≠ AuthenticationRequired.
Proof.
  destruct cmd; unfold run_command, bind, ret; intros E;
    repeat (case_match; simplify_eq/=); try done.
  split; [|done]. by eapply main_events_exit.
Qed.

Lemma cli_authenticated_dec args :
  cli_authenticated args ∨ ¬ cli_authenticated args.
Proof.
  unfold cli_authenticated. rewrite <- !truthy_str_nonempty.
  destruct (truthy_str (cli_token args)); [left; left; by eexists|].
  destruct (truthy_str (cli_username args)), (truthy_str (cli_password args));
    try (right; intros [[? [=]] | [[? ?] [? ?]]]; done).
  left. right. split; by eexists.
Qed.

(** X10: a run of [main] prints a document or fails with exit code 1,
    never another code.  It fails for want of authentication exactly when
    neither a non-empty token nor a non-empty username with a non-empty
    password is given, and then nothing but the parser's clock reading has
    happened: no request is sent and no object is touched. *)
Theorem main_command_exit_status (args : CommandLine) (w : World) :
  (∀ f code, fst (main_command args w) = Stderr f code → code = 1)
  ∧ (fst (main_command args w) = Stderr AuthenticationRequired 1
     ↔ ¬ cli_authenticated args)
  ∧ (¬ cli_authenticated args → snd (main_command args w) = ticked w).
Proof.
  split; [|split].
  - intros f code E. destruct (cli_authenticated_dec args) as [Hauth|Hno].
    + rewrite (main_command_authenticated _ _ Hauth) in E.
      destruct (run_command _ _ _) as [[r|e] w'] eqn:Er; simpl in E.
      * subst r. by destruct (run_command_failure _ _ _ _ _ _ Er).
      * by injection E.
    + rewrite (main_command_unauthenticated _ _ Hno) in E. by injection E.
  - split.
    + intros E Hauth. rewrite (main_command_authenticated _ _ Hauth) in E.
      destruct (run_command _ _ _) as [[r|e] w'] eqn:Er; simpl in E; [|done].
      subst r. by destruct (run_command_failure _ _ _ _ _ _ Er).
    + intros Hno. by rewrite (main_command_unauthenticated _ _ Hno).
  - intros Hno. by rewrite (main_command_unauthenticated _ _ Hno).
Qed.

Lemma run_command_search parser_now query w :
  run_command parser_now (Search query) w
  = match head (calendars w) with
    | None => (Ok (Stderr NoCalendarFound 1), w)
    | Some cal =>
        match search_events query (Some cal) w with
        | (Ok l, w') => (Ok (Stdout (EventList l)), w')
        | (Raise e, w') => (Raise e, w')
        end
    end.
Proof.
  unfold run_command, bind, get_calendar, get_calendars, bind, ret.
  by destruct (calendars w).
Qed.

(** X11: the command [search] never ends in an exception: without any
    calendar it fails with "No calendar found" (exit 1); otherwise it
    prints exactly the events of the first calendar whose lowered title +
    description + location contains the lowered query, in order.  In both
    cases no request is sent and no object is touched. *)
Theorem main_command_search (args : CommandLine) (query : string) (w : World) :
  cli_authenticated args →
  cli_command args = Search query →
  match calendars w with
  | [] => main_command args w = (Stderr NoCalendarFound 1, ticked w)
  | cal :: _ =>
      ∃ r, main_command args w = (Stdout (EventList r), ticked w)
           ∧ selects (matches_query query w) (cal_events cal) r
  end.
Proof.
  intros Hauth Hcmd. rewrite (main_command_authenticated _ _ Hauth), Hcmd.
  rewrite run_command_search. cbn [calendars ticked].
  destruct (calendars w) as [|cal rest] eqn:Ecal; [done|]. cbn [head].
  rewrite (search_events_resolved query (Some cal) (ticked w) (Some cal) eq_refl).
  destruct (search_events_loop_selects query [] (cal_events cal) (ticked w))
    as (r & Hr & ->).
  by exists r.
Qed.

Lemma get_todos_without_marker w :
  calendars w = [] → get_todos None w = (Ok [], w).
Proof. intros E. rewrite get_todos_default. by rewrite E. Qed.

(** X12: with a usable authentication and a principal without calendars,
    the listing commands print empty lists, [search] fails with "No
    calendar found", the task commands fail with "Todo not found" or
    "Failed to create todo", and [update] and [delete] end in the
    exception AttributeError caught at the top (not in "Event not
    found"); every one of these exits with code 1, sends no request and
    touches no object. *)
Theorem main_command_without_calendars (tok u p user : option string) (w : World) :
  nonempty tok ∨ (nonempty u ∧ nonempty p) →
  calendars w = [] →
  main_command (mkCommandLine tok u p user ListCalendars) w
  = (Stdout (CalendarList []), ticked w)
  ∧ main_command (mkCommandLine tok u p user ListTodos) w
    = (Stdout (TodoList []), ticked w)
  ∧ (∀ query, main_command (mkCommandLine tok u p user (Search query)) w
              = (Stderr NoCalendarFound 1, ticked w))
  ∧ (∀ uid, main_command (mkCommandLine tok u p user (CompleteTodo uid)) w
            = (Stderr TodoNotFound 1, ticked w))
  ∧ (∀ uid, main_command (mkCommandLine tok u p user (DeleteTodo uid)) w
            = (Stderr TodoNotFound 1, ticked w))
  ∧ (∀ title description tags priority,
       main_command (mkCommandLine tok u p user
                       (CreateTodo title description tags priority None)) w
       = (Stderr FailedToCreateTodo 1, ticked w))
  ∧ (∀ uid, main_command (mkCommandLine tok u p user (DeleteEvent uid)) w
            = (Stderr (Uncaught AttributeError) 1, ticked w))
  ∧ (∀ uid title description location,
       main_command (mkCommandLine tok u p user
                       (Update uid title description location None None)) w
       = (Stderr (Uncaught AttributeError) 1, ticked w)).
Proof.
  intros Hauth Ecal.
  assert (∀ cmd, cli_authenticated (mkCommandLine tok u p user cmd)) as Ha
    by (intros cmd; exact Hauth).
  assert (calendars (ticked w) = []) as Ecal' by done.
  repeat split; intros; rewrite (main_command_authenticated _ _ (Ha _));
    cbn [cli_command].
  - unfold run_command, bind, get_calendars, ret, ticked. cbn [calendars].
    by rewrite Ecal.
  - unfold run_command, bind. by rewrite (get_todos_without_marker _ Ecal').
  - rewrite run_command_search. by rewrite Ecal'.
  - unfold run_command, bind.
    rewrite (complete_todo_unfold uid None (ticked w) []
               (get_todos_without_marker _ Ecal')). done.
  - unfold run_command, bind.
    rewrite (delete_todo_unfold uid None (ticked w) []
               (get_todos_without_marker _ Ecal')). done.
  - unfold run_command, parse_if. cbn [truthy_str]. unfold bind at 1. cbn [ret].
    unfold bind at 1.
    rewrite (create_todo_run _ _ _ _ _ None (ticked w) None); [done|].
    unfold or_get_todo_calendar, get_todo_calendar, get_calendars, bind, ret.
    by rewrite Ecal'.
  - unfold run_command, bind.
    rewrite (delete_event_resolved uid None (ticked w) None
               (or_get_calendar_no_calendar _ Ecal')). done.
  - unfold run_command, parse_if. cbn [truthy_str]. unfold bind at 1. cbn [ret].
    unfold bind at 1. cbn [ret]. unfold bind at 1.
    rewrite (update_event_resolved uid title description location None None None
               (ticked w) None (or_get_calendar_no_calendar _ Ecal')). done.
Qed.

(** X13: a date text the parser rejects ends [update], [create] and
    [create-todo] in the parser's exception (exit 1) before anything is
    done: no request is sent and no object is touched.  This holds for
    the [--start] text, whatever the other options are, for the [--end]
    text whenever the [--start] text, which is parsed first, is absent,
    empty or accepted ([update]) or accepted ([create], where an absent
    [--start] stands for the time the parser was built), and for the
    [--due] text. *)
Theorem main_command_rejected_date (tok u p user : option string) (w : World)
    (text : string) (ex : exn) :
  nonempty tok ∨ (nonempty u ∧ nonempty p) →
  text ≠ "" →
  parser_parse text = Raise ex →
  (∀ uid title description location end_,
     main_command (mkCommandLine tok u p user
                     (Update uid title description location (Some text) end_)) w
     = (Stderr (Uncaught ex) 1, ticked w))
  ∧ (∀ uid title description location start,
       ¬ nonempty start ∨ (∃ s d, start = Some s ∧ s ≠ "" ∧ parser_parse s = Ok d) →
       main_command (mkCommandLine tok u p user
                       (Update uid title description location start (Some text))) w
       = (Stderr (Uncaught ex) 1, ticked w))
  ∧ (∀ title description location end_ reminder rrule,
       main_command (mkCommandLine tok u p user
                       (Create title description location (Some text) end_
                          reminder rrule)) w
       = (Stderr (Uncaught ex) 1, ticked w))
  ∧ (∀ title description location start reminder rrule d,
       parser_parse (default (isoformat (clock w (ticks w))) start) = Ok d →
       main_command (mkCommandLine tok u p user
                       (Create title description location start (Some text)
                          reminder rrule)) w
       = (Stderr (Uncaught ex) 1, ticked w))
  ∧ (∀ title description tags priority,
       main_command (mkCommandLine tok u p user
                       (CreateTodo title description tags priority (Some text))) w
       = (Stderr (Uncaught ex) 1, ticked w)).
Proof.
  intros Hauth Htext Hparse.
  assert (∀ cmd, cli_authenticated (mkCommandLine tok u p user cmd)) as Ha
    by (intros cmd; exact Hauth).
  assert (truthy_str (Some text) = Some text) as Et by (by apply truthy_str_Some).
  split; [|split; [|split; [|split]]].
  - intros. rewrite (main_command_authenticated _ _ (Ha _)).
    cbn [cli_command]. unfold run_command, parse_if, parse_date, bind, ret, raise.
    rewrite Et, Hparse. done.
  - intros uid title description location start Hstart.
    rewrite (main_command_authenticated _ _ (Ha _)).
    cbn [cli_command]. unfold run_command, parse_if, parse_date, bind, ret, raise.
    destruct Hstart as [Hno | (s & d & -> & Hs & Hd)].
    + apply truthy_str_None in Hno. rewrite Hno, Et, Hparse. done.
    + rewrite (proj2 (truthy_str_Some (Some s) s) (conj eq_refl Hs)), Hd, Et, Hparse.
      done.
  - intros. rewrite (main_command_authenticated _ _ (Ha _)).
    cbn [cli_command]. unfold run_command, parse_date, bind, ret, raise.
    cbn [default]. unfold id. rewrite Hparse. done.
  - intros title description location start reminder rrule d Hd.
    rewrite (main_command_authenticated _ _ (Ha _)).
    cbn [cli_command]. unfold run_command, parse_date, bind, ret, raise.
    rewrite Hd, Et, Hparse. done.
  - intros. rewrite (main_command_authenticated _ _ (Ha _)).
    cbn [cli_command]. unfold run_command, parse_if, parse_date, bind, ret, raise.
    rewrite Et, Hparse. done.
Qed.

(** X14: the command [create], with a calendar at hand, always gives
    [create_event] a start and an end, so that the defaults of the facade
    are not used: the start is the parsed [--start] text (when the option
    is absent, the text is the ISO form of the time the parser was built),
    the end is the parsed [--end] text, or start + 1 hour when the option
    is absent or empty; a missing description or location counts as
    empty.  When that end and the trigger of the reminder exist, the
    clock is read twice (parser and time stamp), one object is saved to
    the first calendar and the run prints "created".  When start + 1 hour
    is past the year 9999, or the reminder is no duration a timedelta can
    hold, the run ends in OverflowError (exit 1) and nothing is saved;
    the time stamp has been read only in the second case. *)
Theorem main_command_create (tok u p user : option string) (w : World)
    (cal : Calendar) (rest : list Calendar) (title : string)
    (description location start end_ : option string) (reminder : option Z)
    (rrule : option string) (st en : datetime)
    (rule : option (list (string * list string))) :
  nonempty tok ∨ (nonempty u ∧ nonempty p) →
  calendars w = cal :: rest →
  parser_parse (default (isoformat (clock w (ticks w))) start) = Ok st →
  (¬ nonempty end_ ∧ en = dt_shift st (micros 0 1 0))
  ∨ (∃ s, end_ = Some s ∧ s ≠ "" ∧ parser_parse s = Ok en) →
  (¬ nonempty rrule ∧ rule = None)
  ∨ (∃ r parsed, rrule = Some r ∧ r ≠ "" ∧ vRecur_from_ical r = Ok parsed
                 ∧ rule = Some parsed) →
  let run :=
    main_command (mkCommandLine tok u p user
                    (Create title description location start end_ reminder rrule)) w in
  (nonempty end_ ∨ representable en → reminder_in_range reminder →
     ∃ obj ical w',
       run = (Stdout (Status "created" (UidOf obj)), w')
       ∧ created_as cal ical 2 obj w w'
       ∧ built_event title (or_empty description) (or_empty location) st en
           (clock w (S (ticks w))) reminder rule ical)
  ∧ (¬ nonempty end_ → ¬ representable en →
       run = (Stderr (Uncaught OverflowError) 1, ticked w))
  ∧ (nonempty end_ ∨ representable en → ¬ reminder_in_range reminder →
       run = (Stderr (Uncaught OverflowError) 1, ticked (ticked w))).
Proof.
  intros Hauth Ecal Hstart Hend Hrule run. subst run.
  rewrite (main_command_authenticated
             (mkCommandLine tok u p user _) w Hauth). cbn [cli_command].
  assert (run_command (clock w (ticks w))
            (Create title description location start end_ reminder rrule) (ticked w)
          = match match truthy_str end_ with
                  | Some s => parse_date s
                  | None => do hour <- lift (timedelta 0 1 0); lift (dt_add st hour)
                  end (ticked w) with
            | (Ok en', w1) =>
                match create_event title (or_empty description) (or_empty location)
                        (Some st) (Some en') reminder rrule None w1 with
                | (Ok obj, w2) => (Ok (Stdout (Status "created" (UidOf obj))), w2)
                | (Raise e, w2) => (Raise e, w2)
                end
            | (Raise e, w1) => (Raise e, w1)
            end) as ->.
  { unfold run_command. unfold bind at 1, parse_date at 1. rewrite Hstart.
    reflexivity. }
  assert (nonempty end_ ∨ representable en →
          match truthy_str end_ with
          | Some s => parse_date s
          | None => do hour <- lift (timedelta 0 1 0); lift (dt_add st hour)
          end (ticked w) = (Ok en, ticked w)) as Hok.
  { intros Hin. destruct Hend as [[Hno ->] | (s & -> & Hs & Hp)].
    - destruct Hin as [Hin|Hin]; [done|].
      apply truthy_str_None in Hno.
      by rewrite Hno, timedelta_one_hour, bind_lift_Ok, (dt_add_representable _ _ Hin).
    - rewrite (proj2 (truthy_str_Some (Some s) s) (conj eq_refl Hs)).
      unfold parse_date. by rewrite Hp. }
  assert (works_on None (ticked w) cal) as Hcal
    by (right; split; [done | by cbn [calendars ticked]; rewrite Ecal]).
  destruct (create_event_run title (or_empty description) (or_empty location)
              (Some st) (Some en) reminder rrule None (Some cal) (ticked w)
              (or_get_calendar_works_on _ _ _ Hcal)) as (Hrun & _ & Hno_trigger).
  cbv zeta in Hrun, Hno_trigger. cbn [default] in Hrun.
  assert (end_in_range st (Some en)) as Hen by (intros [=]).
  split; [|split].
  - intros Hin Hrem. rewrite (Hok Hin), (Hrun Hen Hrem).
    destruct Hrule as [[Hno ->] | (r & parsed & -> & Hr & Hp & ->)];
      [ apply truthy_str_None in Hno; rewrite Hno
      | rewrite (proj2 (truthy_str_Some (Some r) r) (conj eq_refl Hr)), Hp ];
      match goal with
      | |- context [save_event (Some cal) ?i _] =>
          destruct (created_as_saved cal i 1 (ticked w)) as (obj & w' & E & Hc);
          exists obj, i, w'; rewrite E;
          (split; [done|]); split; [exact Hc | apply event_of_built]
      end.
  - intros Hno Hover. destruct Hend as [[_ ->] | (s & -> & Hs & _)].
    + apply truthy_str_None in Hno.
      by rewrite Hno, timedelta_one_hour, bind_lift_Ok, (dt_add_overflow _ _ Hover).
    + exfalso. apply Hno. by exists s.
  - intros Hin Hrem. by rewrite (Hok Hin), (Hno_trigger Hen Hrem).
Qed.

Lemma main_events_only_queried a w :
  only_queried w (snd (main_events a w)).
Proof.
  unfold main_events. rewrite timedelta_one_day, timedelta_seven_days.
  unfold bind, lift, ret, get_calendar, get_calendars, get_events,
    or_get_calendar, date_search, log, now, parse_date, raise, bind, ret,
    only_queried.
  repeat (case_match; simplify_eq/=);
    (split; [done|]); (split; [done|]);
    first [ by exists []; rewrite app_nil_r
          | eexists [_]; split; [done|]; by repeat constructor ].
Qed.

(** X15: the listing commands ([list-calendars], [events], [search],
    [list-todos]) are safe: whatever the options, the authentication and
    the world, the run leaves the calendars and every object as they
    were, and the only requests it sends are range queries. *)
Theorem main_command_lists_safely (args : CommandLine) (w : World) :
  lists_only (cli_command args) →
  only_queried w (snd (main_command args w)).
Proof.
  intros Hcmd.
  assert (only_queried w (ticked w)) as Hticked.
  { split; [done|]. split; [done|]. exists []. by rewrite app_nil_r. }
  destruct (cli_authenticated_dec args) as [Hauth|Hno].
  2: { by rewrite (main_command_unauthenticated _ _ Hno). }
  rewrite (main_command_authenticated _ _ Hauth).
  assert (only_queried w
            (snd (run_command (clock w (ticks w)) (cli_command args) (ticked w))))
    as Hrun.
  { destruct (cli_command args); simpl in Hcmd; try contradiction.
    - exact Hticked.
    - unfold run_command, bind.
      pose proof (main_events_only_queried a (ticked w)) as Hq.
      destruct (main_events a (ticked w)) as [[o|e] w']; exact Hq.
    - rewrite run_command_search.
      destruct (head (calendars (ticked w))) as [cal|]; [|exact Hticked].
      pose proof (search_events_reads query (Some cal) (ticked w)) as Hs.
      destruct (search_events query (Some cal) (ticked w)) as [[l|e] w'];
        simpl in Hs; subst w'; exact Hticked.
    - unfold run_command, bind.
      destruct (get_todos_reads None (ticked w)) as [l ->]. exact Hticked. }
  by destruct (run_command _ _ _) as [[r|e] w'].
Qed.

Lemma split_comma_length s :
  length (split_comma s) = S (count_commas s).
Proof.
  induction s as [|c s IH]; [done|]. simpl.
  destruct (Ascii.eqb c ","); simpl; [by rewrite IH|].
  destruct (split_comma s); simpl in *; done.
Qed.

(** X16: the command [create-todo], with a task calendar at hand, hands
    [create_todo] the pieces of the [--tags] text between the commas, each
    stripped, empty pieces included: one tag more than the text has
    commas, so that a non-empty [--tags] always gives the task
    categories; without [--tags], or with an empty one, the tag list is
    empty and the task has none.  A missing description counts as empty,
    the due time is the parsed [--due] text if given, the clock is read
    twice and the run prints "created".  This is the run for every
    priority of the signed 32-bit range, the priorities 1 to 9 of the
    command line among them; for a priority outside that range the run
    would end in ValueError (exit 1) with nothing saved. *)
Theorem main_command_create_todo (tok u p user : option string) (w : World)
    (tcal : Calendar) (title : string) (description tags : option string)
    (priority : Z) (due : option string) (parsed_due : option datetime) :
  nonempty tok ∨ (nonempty u ∧ nonempty p) →
  first_such has_marker (calendars w) (Some tcal) →
  (¬ nonempty due ∧ parsed_due = None)
  ∨ (∃ s d, due = Some s ∧ s ≠ "" ∧ parser_parse s = Ok d ∧ parsed_due = Some d) →
  let run :=
    main_command (mkCommandLine tok u p user
                    (CreateTodo title description tags priority due)) w in
  (int32 priority →
     ∃ obj ical w' tag_list,
       run = (Stdout (Status "created" (UidOf obj)), w')
       ∧ created_as tcal ical 2 obj w w'
       ∧ built_todo title (or_empty description) (Some tag_list) priority
           (clock w (S (ticks w))) parsed_due ical
       ∧ (¬ nonempty tags → tag_list = [])
       ∧ (∀ s, tags = Some s → s ≠ "" →
            tag_list = map str_strip (split_comma s)
            ∧ length tag_list = S (count_commas s)))
  ∧ (¬ int32 priority → run = (Stderr (Uncaught ValueError) 1, ticked w)).
Proof.
  intros Hauth Htcal Hdue run. subst run.
  rewrite (main_command_authenticated
             (mkCommandLine tok u p user _) w Hauth). cbn [cli_command].
  set (tag_list := match truthy_str tags with
                   | Some s => map str_strip (split_comma s)
                   | None => []
                   end).
  assert (run_command (clock w (ticks w))
            (CreateTodo title description tags priority due) (ticked w)
          = match create_todo title (or_empty description) (Some tag_list)
                    priority parsed_due None (ticked w) with
            | (Ok (Some t), w') => (Ok (Stdout (Status "created" (UidOf t))), w')
            | (Ok None, w') => (Ok (Stderr FailedToCreateTodo 1), w')
            | (Raise e, w') => (Raise e, w')
            end) as ->.
  { unfold run_command. cbv zeta. unfold bind at 1.
    assert (parse_if due (ticked w) = (Ok parsed_due, ticked w)) as ->.
    { unfold parse_if. destruct Hdue as [[Hno ->] | (s & d & -> & Hs & Hp & ->)].
      - apply truthy_str_None in Hno. by rewrite Hno.
      - rewrite (proj2 (truthy_str_Some (Some s) s) (conj eq_refl Hs)).
        unfold parse_date, bind. by rewrite Hp. }
    unfold bind. fold tag_list.
    by destruct (create_todo _ _ _ _ _ _ _) as [[[t|]|e] w']. }
  assert (or_get_todo_calendar None (ticked w) = (Ok (Some tcal), ticked w)) as Hres
    by (apply or_get_todo_calendar_tasks_of; right; by split).
  destruct (create_todo_resolved title (or_empty description) (Some tag_list)
              priority parsed_due None (ticked w) (Some tcal) Hres)
    as [Hin Hout].
  split; [|intros Hno; by rewrite (Hout Hno)].
  intros Hint. destruct (Hin Hint) as (obj & ical & w' & E & Hc & Hb).
  exists obj, ical, w', tag_list. rewrite E.
  split; [done|]. split; [exact Hc|]. split; [exact Hb|]. split.
  - intros Hno. unfold tag_list. apply truthy_str_None in Hno. by rewrite Hno.
  - intros s -> Hs. unfold tag_list.
    rewrite (proj2 (truthy_str_Some (Some s) s) (conj eq_refl Hs)).
    split; [done|]. by rewrite length_map, split_comma_length.
Qed.

End CommandLineProperties.

Lemma main_command_exit_status_witness :
  snd (@main_command ascii_library ascii_formatting
         (mkCommandLine (Some "") None (Some "secret") None (DeleteEvent "1"))
         two_events_world)
  = ticked two_events_world.
Proof.
  apply (proj2 (proj2 (@main_command_exit_status ascii_library ascii_formatting
           (mkCommandLine (Some "") None (Some "secret") None (DeleteEvent "1"))
           two_events_world))).
  intros [(s & [= <-] & Hs) | [(s & [=] & _) _]]. by apply Hs.
Defined.

Lemma main_command_search_witness :
  ∃ r, @main_command ascii_library ascii_formatting
         (mkCommandLine (Some "y0_token") None None None (Search "ALP"))
         two_events_world
       = (Stdout (EventList r), ticked two_events_world)
       ∧ selects (matches_query (H := ascii_library) "ALP" two_events_world)
           (cal_events two_events) r.
Proof.
  apply (@main_command_search ascii_library ascii_formatting
           (mkCommandLine (Some "y0_token") None None None (Search "ALP"))
           "ALP" two_events_world).
  - left. exists "y0_token". split; [reflexivity | discriminate].
  - reflexivity.
Defined.

Lemma main_command_without_calendars_witness :
  @main_command ascii_library ascii_formatting
    (mkCommandLine (Some "y0_token") None None None (DeleteEvent "1"))
    (world_of [] ∅)
  = (Stderr (Uncaught AttributeError) 1, ticked (world_of [] ∅)).
Proof.
  apply (@main_command_without_calendars ascii_library ascii_formatting
           (Some "y0_token") None None None (world_of [] ∅)).
  - left. exists "y0_token". split; [reflexivity | discriminate].
  - reflexivity.
Defined.

Lemma main_command_rejected_date_witness :
  @main_command one_date_library ascii_formatting
    (mkCommandLine (Some "y0_token") None None None
       (Update "1" (Some "new") None None (Some "0001-01-01T00:00:00")
          (Some "tomorrow")))
    two_events_world
  = (Stderr (Uncaught ValueError) 1, ticked two_events_world).
Proof.
  assert (nonempty (Some "y0_token") ∨ (nonempty None ∧ nonempty None)) as Hauth.
  { left. exists "y0_token". split; [reflexivity | discriminate]. }
  assert ("tomorrow" ≠ "") as Htext by discriminate.
  destruct (@main_command_rejected_date one_date_library ascii_formatting
              (Some "y0_token") None None None two_events_world "tomorrow"
              ValueError Hauth Htext eq_refl) as (_ & Hend & _).
  apply Hend. right. exists "0001-01-01T00:00:00", (mkDatetime 1 0 0 0 0).
  split; [reflexivity|]. split; [discriminate | reflexivity].
Defined.

Lemma main_command_create_witness :
  ∃ obj ical w',
    @main_command one_date_library ascii_formatting
      (mkCommandLine (Some "y0_token") None None None
         (Create "Demo" None (Some "L") None None (Some 15) None))
      two_events_world
    = (Stdout (Status "created" (UidOf obj)), w')
    ∧ created_as two_events ical 2 obj two_events_world w'
    ∧ built_event "Demo" "" "L" (mkDatetime 1 0 0 0 0) (mkDatetime 1 1 0 0 0)
        epoch (Some 15) None ical.
Proof.
  assert (nonempty (Some "y0_token") ∨ (nonempty None ∧ nonempty None)) as Hauth.
  { left. exists "y0_token". split; [reflexivity | discriminate]. }
  destruct (@main_command_create one_date_library ascii_formatting
              (Some "y0_token") None None None two_events_world two_events []
              "Demo" None (Some "L") None None (Some 15) None
              (mkDatetime 1 0 0 0 0) (mkDatetime 1 1 0 0 0) None
              Hauth eq_refl eq_refl) as [Hw _].
  - left. split; [|reflexivity]. intros (s & [=] & _).
  - left. split; [|reflexivity]. intros (s & [=] & _).
  - apply Hw.
    + right. vm_compute. split; discriminate.
    + intros m [= <-] _. vm_compute. split; discriminate.
Defined.

Lemma main_command_lists_safely_witness :
  only_queried two_events_world
    (snd (@main_command ascii_library ascii_formatting
            (mkCommandLine (Some "y0_token") None None None
               (Events (mkEventsArgs true None None None)))
            two_events_world)).
Proof.
  apply (@main_command_lists_safely ascii_library ascii_formatting
           (mkCommandLine (Some "y0_token") None None None
              (Events (mkEventsArgs true None None None)))
           two_events_world).
  exact I.
Defined.

Lemma main_command_create_todo_witness :
  ∃ obj ical w' tag_list,
    @main_command ascii_library ascii_formatting
      (mkCommandLine (Some "y0_token") None None None
         (CreateTodo "Task" None (Some "home, urgent") 2 None))
      tasks_world
    = (Stdout (Status "created" (UidOf obj)), w')
    ∧ created_as tasks ical 2 obj tasks_world w'
    ∧ built_todo "Task" "" (Some tag_list) 2 epoch None ical
    ∧ (¬ nonempty (Some "home, urgent") → tag_list = [])
    ∧ (∀ s, Some "home, urgent" = Some s → s ≠ "" →
         tag_list = map strip (split_comma s)
         ∧ length tag_list = S (count_commas s)).
Proof.
  assert (nonempty (Some "y0_token") ∨ (nonempty None ∧ nonempty None)) as Hauth.
  { left. exists "y0_token". split; [reflexivity | discriminate]. }
  assert (first_such has_marker (calendars tasks_world) (Some tasks)) as Htcal.
  { exists [two_events], []. split; [reflexivity|]. split.
    - exists "https://x/", "/2". reflexivity.
    - repeat constructor. intros Hm. apply contains_spec in Hm. discriminate. }
  destruct (@main_command_create_todo ascii_library ascii_formatting
              (Some "y0_token") None None None tasks_world tasks
              "Task" None (Some "home, urgent") 2 None None Hauth Htcal)
    as [Hw _].
  - left. split; [|reflexivity]. intros (s & [=] & _).
  - apply Hw. vm_compute. split; discriminate.
Defined.

(** The example of the tags: the pieces are stripped, the empty piece
    stays. *)
Lemma split_comma_example :
  map strip (split_comma "home, urgent ,,x") = ["home"; "urgent"; ""; "x"].
Proof. reflexivity. Qed.

(** ** events with a range, create_event without a calendar *)

Lemma of_micro_to_micro d :
  valid_time d → of_micro (to_micro d) = d.
Proof.
  intros (Hh & Hm & Hs & Hu). destruct d as [o h m s us]. simpl in *.
  unfold of_micro, to_micro, us_per_day. cbn [ordinal hour minute second microsecond].
  set (secs := h * 3600 + m * 60 + s).
  assert (0 ≤ secs < 86400) as Hsecs by (unfold secs; lia).
  assert (((o * 86400 + h * 3600 + m * 60 + s) * 1000000 + us)
          = o * (86400 * 1000000) + (secs * 1000000 + us)) as -> by (unfold secs; lia).
  assert (0 ≤ secs * 1000000 + us < 86400 * 1000000) as Hrem by lia.
  rewrite (Z.add_comm (o * _)), Z.div_add, Z.mod_add by lia.
  rewrite (Z.div_small (secs * 1000000 + us)), (Z.mod_small (secs * 1000000 + us)) by lia.
  cbv zeta.
  assert ((secs * 1000000 + us) `div` 1000000 = secs) as ->.
  { rewrite Z.add_comm, Z.div_add by lia. rewrite Z.div_small; lia. }
  assert ((secs * 1000000 + us) `mod` 1000000 = us) as ->.
  { rewrite Z.add_comm, Z.mod_add by lia. apply Z.mod_small; lia. }
  assert (secs `div` 3600 = h) as ->.
  { unfold secs. replace (h * 3600 + m * 60 + s) with ((m * 60 + s) + h * 3600) by lia.
    rewrite Z.div_add by lia. rewrite Z.div_small; lia. }
  assert (secs `mod` 3600 = m * 60 + s) as ->.
  { unfold secs. replace (h * 3600 + m * 60 + s) with ((m * 60 + s) + h * 3600) by lia.
    rewrite Z.mod_add by lia. apply Z.mod_small; lia. }
  assert ((m * 60 + s) `div` 60 = m) as ->.
  { rewrite Z.add_comm, Z.div_add by lia. rewrite Z.div_small; lia. }
  assert ((m * 60 + s) `mod` 60 = s) as ->.
  { rewrite Z.add_comm, Z.mod_add by lia. apply Z.mod_small; lia. }
  f_equal; lia.
Qed.

Lemma dt_shift_days d days :
  valid_time d →
  dt_shift d (micros days 0 0)
  = mkDatetime (ordinal d + days) (hour d) (minute d) (second d) (microsecond d).
Proof.
  intros Hd. unfold dt_shift.
  rewrite <- (of_micro_to_micro (mkDatetime (ordinal d + days) _ _ _ _)) by exact Hd.
  f_equal. unfold to_micro, micros. cbn [ordinal hour minute second microsecond].
  lia.
Qed.

Section EventsRange.
Context `{Library}.

(** X17: on the path [events] without [--today], the window starts at the
    parsed [--from] text, or at the current time when the option is
    absent or empty, and ends at the parsed [--to] text, or seven days
    after the start (the same time of day, seven days later) when that
    option is absent or empty.  When this end exists, the one range query
    goes, with exactly this window, to the calendar [get_calendar]
    resolves for [--calendar]; when none resolves the run exits with code
    1 and no query is made.  When [--to] is absent or empty and seven days
    after the start is past the year 9999, the branch raises
    OverflowError before any calendar is asked for. *)
Theorem events_range_window (a : EventsArgs) (w : World) (st en : datetime)
    (reads : nat) (r : option Calendar) :
  today a = false →
  (¬ nonempty (from_date a) ∧ st = clock w (ticks w) ∧ reads = 1%nat)
  ∨ (∃ s, from_date a = Some s ∧ s ≠ "" ∧ parser_parse s = Ok st ∧ reads = 0%nat) →
  (¬ nonempty (to_date a) ∧ en = dt_shift st (micros 7 0 0))
  ∨ (∃ s, to_date a = Some s ∧ s ≠ "" ∧ parser_parse s = Ok en) →
  get_calendar (calendar_name a) w = (Ok r, w) →
  (nonempty (to_date a) ∨ representable en →
     main_events a w
     = match r with
       | None => (Ok (Exit 1), after_clock reads w)
       | Some cal =>
           (Ok (PrintEvents (date_search_answer cal (heap w) (Some st) (Some en))),
            logged (after_clock reads w) (DateSearch cal (Some st) (Some en)))
       end)
  ∧ (¬ nonempty (to_date a) → ¬ representable en →
       main_events a w = (Raise OverflowError, after_clock reads w))
  ∧ (¬ nonempty (to_date a) → valid_time st →
     en = mkDatetime (ordinal st + 7) (hour st) (minute st) (second st)
            (microsecond st)).
Proof.
  intros Htoday Hfrom Hto Hcal.
  assert (∀ n, get_calendar (calendar_name a) (after_clock n w)
               = (Ok r, after_clock n w)) as Hcal'.
  { intros n. revert Hcal.
    unfold get_calendar, get_calendars, bind, ret. cbn [calendars after_clock].
    destruct (calendars w); [by intros [= <-]|].
    destruct (truthy_str (calendar_name a)); by intros [= <-]. }
  assert (∀ A (rest : datetime → M A),
            (do start <- match truthy_str (from_date a) with
                         | Some s => parse_date s
                         | None => now
                         end;
             rest start) w = rest st (after_clock reads w)) as Hstart.
  { intros A rest. destruct Hfrom as [(Hno & -> & ->) | (s & Es & Hs & Hp & ->)].
    - apply truthy_str_None in Hno. by rewrite Hno.
    - rewrite Es, (proj2 (truthy_str_Some (Some s) s) (conj eq_refl Hs)).
      unfold bind, parse_date. rewrite Hp. by destruct w. }
  assert (main_events a w
          = (do end_ <- match truthy_str (to_date a) with
                        | Some s => parse_date s
                        | None => do week <- lift (timedelta 7 0 0);
                                  lift (dt_add st week)
                        end;
             do calendar <- get_calendar (calendar_name a);
             match calendar with
             | None => ret (Exit 1)
             | Some cal =>
                 do events <- get_events (Some cal) (Some st) (Some end_);
                 ret (PrintEvents events)
             end) (after_clock reads w)) as ->.
  { unfold main_events. rewrite Htoday. cbv iota.
    rewrite bind_assoc, Hstart, bind_assoc. reflexivity. }
  split; [|split].
  - intros Hin.
    assert (match truthy_str (to_date a) with
            | Some s => parse_date s
            | None => do week <- lift (timedelta 7 0 0); lift (dt_add st week)
            end (after_clock reads w) = (Ok en, after_clock reads w)) as Hend.
    { destruct Hto as [[Hno ->] | (s & Es & Hs & Hp)].
      - destruct Hin as [Hin|Hin]; [done|].
        apply truthy_str_None in Hno.
        by rewrite Hno, timedelta_seven_days, bind_lift_Ok,
          (dt_add_representable _ _ Hin).
      - rewrite Es, (proj2 (truthy_str_Some (Some s) s) (conj eq_refl Hs)).
        unfold parse_date. by rewrite Hp. }
    unfold bind at 1. rewrite Hend. unfold bind at 1. rewrite Hcal'.
    destruct r as [cal|]; [|done]. reflexivity.
  - intros Hno Hover. destruct Hto as [[_ ->] | (s & Es & Hs & _)].
    + apply truthy_str_None in Hno. unfold bind at 1.
      by rewrite Hno, timedelta_seven_days, bind_lift_Ok, (dt_add_overflow _ _ Hover).
    + exfalso. apply Hno. by exists s.
  - intros Hno Hvalid. destruct Hto as [[_ ->] | (s & Es & Hs & _)].
    + by apply dt_shift_days.
    + exfalso. apply Hno. by exists s.
Qed.

(** X18: [create_event] without a calendar argument, for a principal
    without calendars, builds its event all the same and then raises
    AttributeError (from [calendar.save_event] on None), provided that
    the end and the trigger of the reminder exist and the rule is absent,
    empty or accepted by the parser: the clock has been read, and no
    request is sent.  When the end or the trigger does not exist, the
    OverflowError of the addition or of the timedelta comes first.
    ([create_todo] returns None in the like situation.) *)
Theorem create_event_without_calendar (title description location : string)
    (start end_ : option datetime) (reminder_minutes : option Z)
    (rrule : option string) (w : World) :
  calendars w = [] →
  ¬ nonempty rrule ∨ (∃ r parsed, rrule = Some r ∧ r ≠ "" ∧ vRecur_from_ical r = Ok parsed) →
  let n := if start is Some _ then 1%nat else 2%nat in
  let start' := default (clock w (ticks w)) start in
  let run :=
    create_event title description location start end_ reminder_minutes rrule
      None w in
  (end_in_range start' end_ → reminder_in_range reminder_minutes →
     run = (Raise AttributeError, after_clock n w))
  ∧ (¬ end_in_range start' end_ →
       run = (Raise OverflowError, after_clock (pred n) w))
  ∧ (end_in_range start' end_ → ¬ reminder_in_range reminder_minutes →
       run = (Raise OverflowError, after_clock n w)).
Proof.
  intros Ecal Hrule n start' run.
  destruct (create_event_run title description location start end_
              reminder_minutes rrule None None w
              (or_get_calendar_no_calendar _ Ecal))
    as (Hrun & Hno_end & Hno_trigger).
  fold n start' run in Hrun, Hno_end, Hno_trigger.
  split; [|split; [exact Hno_end | exact Hno_trigger]].
  intros Hend Hrem. rewrite (Hrun Hend Hrem).
  destruct Hrule as [Hno | (r & parsed & -> & Hr & Hp)].
  - apply truthy_str_None in Hno. by rewrite Hno.
  - by rewrite (proj2 (truthy_str_Some (Some r) r) (conj eq_refl Hr)), Hp.
Qed.

End EventsRange.

Lemma events_range_window_witness :
  main_events (H := one_date_library)
    (mkEventsArgs false (Some "0001-01-01T00:00:00") None (Some "cal"))
    two_events_world
  = (Ok (PrintEvents [1%nat; 2%nat]),
     logged (after_clock 0 two_events_world)
       (DateSearch two_events (Some (mkDatetime 1 0 0 0 0))
          (Some (mkDatetime 8 0 0 0 0)))).
Proof.
  destruct (events_range_window (H := one_date_library)
              (mkEventsArgs false (Some "0001-01-01T00:00:00") None (Some "cal"))
              two_events_world (mkDatetime 1 0 0 0 0) (mkDatetime 8 0 0 0 0)
              0 (Some two_events) eq_refl) as [Hw _].
  - right. exists "0001-01-01T00:00:00".
    split; [reflexivity|]. split; [discriminate|]. split; reflexivity.
  - left. split; [|reflexivity]. intros (s & [=] & _).
  - reflexivity.
  - apply Hw. right. vm_compute. split; discriminate.
Defined.

Lemma create_event_without_calendar_witness :
  create_event (H := ascii_library) "Demo" "" "" None None (Some 15) None None
    (world_of [] ∅)
  = (Raise AttributeError, after_clock 2 (world_of [] ∅)).
Proof.
  destruct (create_event_without_calendar (H := ascii_library)
              "Demo" "" "" None None (Some 15) None (world_of [] ∅) eq_refl)
    as [Hw _].
  - left. intros (s & [=] & _).
  - apply Hw.
    + intros _. vm_compute. split; discriminate.
    + intros m [= <-] _. vm_compute. split; discriminate.
Defined.
